(** * A shallow embedding of the 24-game checker and solver (app/checker.py, app/solver.py)

    Python values are modelled as they behave in CPython:
    - [int] is an unbounded integer ([Z]);
    - [float] is an IEEE-754 binary64 number, given by the Standard Library's
      [SpecFloat] operations at precision 53 and maximal exponent 1024;
    - [str] is a sequence of code points, held as a [string] of its UTF-8
      bytes; iteration, slicing and the character tests of [str] decode the
      bytes into code points ([Uni]);
    - [int] <-> [str] conversions raise [ValueError] past CPython's default
      limit of 4300 decimal digits ([sys.get_int_max_str_digits()]);
    - exceptions are the constructors of [exn], threaded through a small error monad. *)

From Stdlib Require Import ZArith List String Ascii Bool Lia Permutation QArith.
From Stdlib Require Import Floats.SpecFloat DecimalN.
Import ListNotations.

Open Scope Z_scope.

Module Py.

(** Exceptions that the modelled code can raise. *)
Inductive exn :=
| ZeroDivisionError
| OverflowError
| IndexError
| ValueError
| TypeError
| KeyError.

(** Result of a Python computation: a value, or a raised exception. *)
Inductive res (A : Type) : Type :=
| Ok (a : A)
| Err (e : exn).
Arguments Ok {A} a.
Arguments Err {A} e.

Definition bind {A B : Type} (m : res A) (k : A -> res B) : res B :=
  match m with
  | Ok a => k a
  | Err e => Err e
  end.

Notation "x <- m ;; k" := (bind m (fun x => k))
  (at level 61, m at next level, right associativity).

(** ** Floats *)

Definition float := spec_float.

(** [float(n)] for an int ([PyLong_AsDouble]): correctly rounded, half to even;
    [OverflowError] when the rounded value does not fit. *)
Definition float_of_int (n : Z) : res float :=
  match binary_normalize 53 1024 n 0 false with
  | S754_infinity _ => Err OverflowError
  | f => Ok f
  end.

(** [a / b] on two ints ([long_true_divide]): the correctly rounded quotient;
    [ZeroDivisionError] when [b = 0], [OverflowError] when the quotient does not
    fit in a float. A zero quotient carries the sign of the quotient's sign rule. *)
Definition int_truediv (a b : Z) : res float :=
  if b =? 0 then Err ZeroDivisionError else
  let s := xorb (a <? 0) (b <? 0) in
  match Z.abs a with
  | Z0 => Ok (S754_zero s)
  | _ =>
      let '(mz, ez, lz) := SFdiv_core_binary 53 1024 (Z.abs a) 0 (Z.abs b) 0 in
      match binary_round_aux 53 1024 s mz ez lz with
      | S754_infinity _ => Err OverflowError
      | f => Ok f
      end
  end.

Definition is_zero (f : float) : bool :=
  match f with S754_zero _ => true | _ => false end.

(** ** Values *)

Inductive pyval :=
| VInt (z : Z)
| VFloat (f : float)
| VStr (s : string).

(** Conversion of a numeric operand to float inside a mixed int/float operation. *)
Definition to_float (v : pyval) : res float :=
  match v with
  | VInt z => float_of_int z
  | VFloat f => Ok f
  | VStr _ => Err TypeError
  end.

Definition str_repeat (s : string) (n : Z) : string :=
  String.concat ""%string (repeat s (Z.to_nat n)).

(** [PY_SSIZE_T_MAX] on a 64-bit build: a repetition count beyond it raises. *)
Definition ssize_max : Z := 2 ^ 63 - 1.

Definition py_add (a b : pyval) : res pyval :=
  match a, b with
  | VInt x, VInt y => Ok (VInt (x + y))
  | VStr s, VStr t => Ok (VStr (String.append s t))
  | VStr _, _ | _, VStr _ => Err TypeError
  | _, _ => x <- to_float a;; y <- to_float b;; Ok (VFloat (SFadd 53 1024 x y))
  end.

Definition py_sub (a b : pyval) : res pyval :=
  match a, b with
  | VInt x, VInt y => Ok (VInt (x - y))
  | VStr _, _ | _, VStr _ => Err TypeError
  | _, _ => x <- to_float a;; y <- to_float b;; Ok (VFloat (SFsub 53 1024 x y))
  end.

Definition py_mul (a b : pyval) : res pyval :=
  match a, b with
  | VInt x, VInt y => Ok (VInt (x * y))
  | VStr s, VInt n | VInt n, VStr s =>
      if ssize_max <? n then Err OverflowError else Ok (VStr (str_repeat s n))
  | VStr _, _ | _, VStr _ => Err TypeError
  | _, _ => x <- to_float a;; y <- to_float b;; Ok (VFloat (SFmul 53 1024 x y))
  end.

Definition py_truediv (a b : pyval) : res pyval :=
  match a, b with
  | VInt x, VInt y => f <- int_truediv x y;; Ok (VFloat f)
  | VStr _, _ | _, VStr _ => Err TypeError
  | _, _ =>
      x <- to_float a;; y <- to_float b;;
      if is_zero y then Err ZeroDivisionError else Ok (VFloat (SFdiv 53 1024 x y))
  end.

(** ** Exact comparisons

    CPython compares int with float, and float with float, by their exact
    mathematical values (NaN compares false). *)

Inductive xval := XFin (q : Q) | XInf (neg : bool) | XNaN.

Definition q_of_m2e (m e : Z) : Q :=
  match e with
  | Zneg p => Qmake m (Pos.pow 2 p)
  | _ => inject_Z (m * 2 ^ e)
  end.

Definition xval_of_float (f : float) : xval :=
  match f with
  | S754_zero _ => XFin 0
  | S754_infinity s => XInf s
  | S754_nan => XNaN
  | S754_finite s m e => XFin (q_of_m2e (if s then Zneg m else Zpos m) e)
  end.

Definition xcmp (a b : xval) : option comparison :=
  match a, b with
  | XNaN, _ | _, XNaN => None
  | XInf s, XInf t => Some (if Bool.eqb s t then Eq else if s then Lt else Gt)
  | XInf s, XFin _ => Some (if s then Lt else Gt)
  | XFin _, XInf t => Some (if t then Gt else Lt)
  | XFin p, XFin q => Some (Qcompare p q)
  end.

Definition num_xval (v : pyval) : option xval :=
  match v with
  | VInt z => Some (XFin (inject_Z z))
  | VFloat f => Some (xval_of_float f)
  | VStr _ => None
  end.

(** [a >= b] where one operand is a float literal of the code; a str operand
    raises [TypeError] (str-to-str comparisons never occur at these call sites). *)
Definition py_ge (a b : pyval) : res bool :=
  match num_xval a, num_xval b with
  | Some x, Some y =>
      Ok (match xcmp x y with Some Gt | Some Eq => true | _ => false end)
  | _, _ => Err TypeError
  end.

Definition py_le (a b : pyval) : res bool := py_ge b a.

(** [a == b] on numbers (never raises). *)
Definition py_num_eq (a b : pyval) : bool :=
  match num_xval a, num_xval b with
  | Some x, Some y => match xcmp x y with Some Eq => true | _ => false end
  | _, _ => false
  end.

(** Truth value of a number, as tested by [if card2[0]:]. *)
Definition py_truthy (v : pyval) : bool :=
  match v with
  | VInt z => negb (z =? 0)
  | VFloat f => negb (is_zero f)
  | VStr s => negb (String.eqb s ""%string)
  end.

End Py.

(** ** Python list operations, with Python's index rules

    A negative index counts from the end; [pop] and item access raise
    [IndexError] out of range, [insert] clamps its index into range. *)
Module PyList.
Import Py.

Definition norm_index (n : nat) (i : Z) : option nat :=
  let j := if i <? 0 then i + Z.of_nat n else i in
  if (0 <=? j) && (j <? Z.of_nat n) then Some (Z.to_nat j) else None.

Definition getitem {A : Type} (l : list A) (i : Z) : res A :=
  match norm_index (List.length l) i with
  | Some k => match nth_error l k with Some x => Ok x | None => Err IndexError end
  | None => Err IndexError
  end.

Definition setitem {A : Type} (l : list A) (i : Z) (x : A) : res (list A) :=
  match norm_index (List.length l) i with
  | Some k => Ok (firstn k l ++ x :: skipn (S k) l)
  | None => Err IndexError
  end.

Definition pop {A : Type} (l : list A) (i : Z) : res (A * list A) :=
  match norm_index (List.length l) i with
  | Some k =>
      match nth_error l k with
      | Some x => Ok (x, firstn k l ++ skipn (S k) l)
      | None => Err IndexError
      end
  | None => Err IndexError
  end.

Definition insert {A : Type} (l : list A) (i : Z) (x : A) : list A :=
  let n := Z.of_nat (List.length l) in
  let j := if i <? 0 then Z.max 0 (i + n) else Z.min i n in
  firstn (Z.to_nat j) l ++ x :: skipn (Z.to_nat j) l.

(** [l.remove(x)] on a list of ints: drop the first element equal to [x];
    [ValueError] if there is none. *)
Fixpoint remove_int (l : list Z) (x : Z) : res (list Z) :=
  match l with
  | [] => Err ValueError
  | y :: r => if Z.eqb y x then Ok r else
      match remove_int r x with Ok r' => Ok (y :: r') | Err e => Err e end
  end.

End PyList.

(** ** Text

    A Python [str] is a sequence of code points; a [string] here holds its
    UTF-8 bytes (a lone surrogate, which a [str] can hold, is written with the
    three bytes of any other code point of its plane). [for i in s], [s[:n]]
    and the tests [isdigit], [isspace] and [int] read the code points. *)
Module Uni.

Definition byte (a : ascii) : Z := Z.of_nat (nat_of_ascii a).
Definition byte_of (z : Z) : ascii := ascii_of_nat (Z.to_nat z).

(** A continuation byte [10xxxxxx]. *)
Definition cont (a : ascii) : bool := (128 <=? byte a) && (byte a <=? 191).

(** The code point that the bytes [b0 :: r] start with, and the bytes after
    it. A byte that starts no well-formed sequence reads as U+FFFD (such
    bytes never come from a [str]). *)
Definition utf8_step (b0 : ascii) (r : list ascii) : Z * list ascii :=
  let n0 := byte b0 in
  if n0 <? 128 then (n0, r)
  else if (194 <=? n0) && (n0 <=? 223) then
    match r with
    | b1 :: r1 => if cont b1 then ((n0 - 192) * 64 + (byte b1 - 128), r1) else (65533, r)
    | [] => (65533, r)
    end
  else if (224 <=? n0) && (n0 <=? 239) then
    match r with
    | b1 :: b2 :: r2 =>
        if cont b1 && cont b2 && (negb (n0 =? 224) || (160 <=? byte b1))
        then ((n0 - 224) * 4096 + (byte b1 - 128) * 64 + (byte b2 - 128), r2)
        else (65533, r)
    | _ => (65533, r)
    end
  else if (240 <=? n0) && (n0 <=? 244) then
    match r with
    | b1 :: b2 :: b3 :: r3 =>
        if cont b1 && cont b2 && cont b3 && (negb (n0 =? 240) || (144 <=? byte b1))
           && (negb (n0 =? 244) || (byte b1 <=? 143))
        then ((n0 - 240) * 262144 + (byte b1 - 128) * 4096 + (byte b2 - 128) * 64
              + (byte b3 - 128), r3)
        else (65533, r)
    | _ => (65533, r)
    end
  else (65533, r).

Fixpoint decode_n (n : nat) (l : list ascii) : list Z :=
  match n, l with
  | S n', b0 :: r => let '(c, r') := utf8_step b0 r in c :: decode_n n' r'
  | _, _ => []
  end.

(** The code points of a text. *)
Definition decode (l : list ascii) : list Z := decode_n (List.length l) l.

Definition cps (s : string) : list Z := decode (list_ascii_of_string s).

(** The UTF-8 bytes of a code point. *)
Definition encode (c : Z) : list ascii :=
  if c <? 128 then [byte_of c]
  else if c <? 2048 then [byte_of (192 + c / 64); byte_of (128 + c mod 64)]
  else if c <? 65536 then
    [byte_of (224 + c / 4096); byte_of (128 + (c / 64) mod 64); byte_of (128 + c mod 64)]
  else
    [byte_of (240 + c / 262144); byte_of (128 + (c / 4096) mod 64);
     byte_of (128 + (c / 64) mod 64); byte_of (128 + c mod 64)].

(** The [str] of a sequence of code points. *)
Definition of_cps (cs : list Z) : string := string_of_list_ascii (flat_map encode cs).

Definition in_ranges (rs : list (Z * Z)) (c : Z) : bool :=
  existsb (fun r => (fst r <=? c) && (c <=? snd r)) rs.

(** The code points [c] with [chr(c).isdigit()] (CPython 3.11, Unicode 14.0). *)
Definition digit_ranges : list (Z * Z) := [
  (48, 57); (178, 179); (185, 185); (1632, 1641); (1776, 1785); (1984, 1993);
  (2406, 2415); (2534, 2543); (2662, 2671); (2790, 2799); (2918, 2927); (3046, 3055);
  (3174, 3183); (3302, 3311); (3430, 3439); (3558, 3567); (3664, 3673); (3792, 3801);
  (3872, 3881); (4160, 4169); (4240, 4249); (4969, 4977); (6112, 6121); (6160, 6169);
  (6470, 6479); (6608, 6618); (6784, 6793); (6800, 6809); (6992, 7001); (7088, 7097);
  (7232, 7241); (7248, 7257); (8304, 8304); (8308, 8313); (8320, 8329); (9312, 9320);
  (9332, 9340); (9352, 9360); (9450, 9450); (9461, 9469); (9471, 9471); (10102, 10110);
  (10112, 10120); (10122, 10130); (42528, 42537); (43216, 43225); (43264, 43273);
  (43472, 43481); (43504, 43513); (43600, 43609); (44016, 44025); (65296, 65305);
  (66720, 66729); (68160, 68163); (68912, 68921); (69216, 69224); (69714, 69722);
  (69734, 69743); (69872, 69881); (69942, 69951); (70096, 70105); (70384, 70393);
  (70736, 70745); (70864, 70873); (71248, 71257); (71360, 71369); (71472, 71481);
  (71904, 71913); (72016, 72025); (72784, 72793); (73040, 73049); (73120, 73129);
  (92768, 92777); (92864, 92873); (93008, 93017); (120782, 120831); (123200, 123209);
  (123632, 123641); (125264, 125273); (127232, 127242); (130032, 130041)].

(** The code points with [chr(c).isdecimal()]: runs of digits zero to nine
    (repeated in the run at 120782). *)
Definition decimal_ranges : list (Z * Z) := [
  (48, 57); (1632, 1641); (1776, 1785); (1984, 1993); (2406, 2415); (2534, 2543);
  (2662, 2671); (2790, 2799); (2918, 2927); (3046, 3055); (3174, 3183); (3302, 3311);
  (3430, 3439); (3558, 3567); (3664, 3673); (3792, 3801); (3872, 3881); (4160, 4169);
  (4240, 4249); (6112, 6121); (6160, 6169); (6470, 6479); (6608, 6617); (6784, 6793);
  (6800, 6809); (6992, 7001); (7088, 7097); (7232, 7241); (7248, 7257); (42528, 42537);
  (43216, 43225); (43264, 43273); (43472, 43481); (43504, 43513); (43600, 43609);
  (44016, 44025); (65296, 65305); (66720, 66729); (68912, 68921); (69734, 69743);
  (69872, 69881); (69942, 69951); (70096, 70105); (70384, 70393); (70736, 70745);
  (70864, 70873); (71248, 71257); (71360, 71369); (71472, 71481); (71904, 71913);
  (72016, 72025); (72784, 72793); (73040, 73049); (73120, 73129); (92768, 92777);
  (92864, 92873); (93008, 93017); (120782, 120831); (123200, 123209); (123632, 123641);
  (125264, 125273); (130032, 130041)].

(** The code points with [chr(c).isspace()]. *)
Definition space_ranges : list (Z * Z) := [
  (9, 13); (28, 32); (133, 133); (160, 160); (5760, 5760); (8192, 8202); (8232, 8233);
  (8239, 8239); (8287, 8287); (12288, 12288)].

Definition isdigit (c : Z) : bool := in_ranges digit_ranges c.
Definition isspace (c : Z) : bool := in_ranges space_ranges c.

(** [Py_UNICODE_TODECIMAL]: the value of a decimal digit. *)
Definition decimal (c : Z) : option Z :=
  match find (fun r => (fst r <=? c) && (c <=? snd r)) decimal_ranges with
  | Some (a, _) => Some ((c - a) mod 10)
  | None => None
  end.

End Uni.

(** ** Decimal conversions: [str(n)] and [int(s)] *)
Module Dec.
Import Py.


Fixpoint uint_chars (d : Decimal.uint) : list ascii :=
  match d with
  | Decimal.Nil => []
  | Decimal.D0 d => "0"%char :: uint_chars d
  | Decimal.D1 d => "1"%char :: uint_chars d
  | Decimal.D2 d => "2"%char :: uint_chars d
  | Decimal.D3 d => "3"%char :: uint_chars d
  | Decimal.D4 d => "4"%char :: uint_chars d
  | Decimal.D5 d => "5"%char :: uint_chars d
  | Decimal.D6 d => "6"%char :: uint_chars d
  | Decimal.D7 d => "7"%char :: uint_chars d
  | Decimal.D8 d => "8"%char :: uint_chars d
  | Decimal.D9 d => "9"%char :: uint_chars d
  end.

Fixpoint chars_uint (cs : list ascii) : option Decimal.uint :=
  match cs with
  | [] => Some Decimal.Nil
  | c :: r =>
      match chars_uint r with
      | None => None
      | Some d =>
          if Ascii.eqb c "0" then Some (Decimal.D0 d)
          else if Ascii.eqb c "1" then Some (Decimal.D1 d)
          else if Ascii.eqb c "2" then Some (Decimal.D2 d)
          else if Ascii.eqb c "3" then Some (Decimal.D3 d)
          else if Ascii.eqb c "4" then Some (Decimal.D4 d)
          else if Ascii.eqb c "5" then Some (Decimal.D5 d)
          else if Ascii.eqb c "6" then Some (Decimal.D6 d)
          else if Ascii.eqb c "7" then Some (Decimal.D7 d)
          else if Ascii.eqb c "8" then Some (Decimal.D8 d)
          else if Ascii.eqb c "9" then Some (Decimal.D9 d)
          else None
      end
  end.

(** Decimal digits of a natural number, most significant first, no leading zero. *)
Definition digits_N (n : N) : list ascii := uint_chars (N.to_uint n).

(** [str(n)] for an int. *)
Definition str_Z (n : Z) : list ascii :=
  match n with
  | Zneg p => "-"%char :: digits_N (Npos p)
  | _ => digits_N (Z.to_N n)
  end.

(** [sys.get_int_max_str_digits()], at its default. *)
Definition max_str_digits : nat := 4300.

(** [str(n)] for an int: [ValueError] when [|n|] has more than
    [max_str_digits] digits. *)
Definition py_str_int (n : Z) : res string :=
  if (max_str_digits <? List.length (digits_N (Z.abs_N n)))%nat then Err ValueError
  else Ok (string_of_list_ascii (str_Z n)).

(** An ASCII digit. *)
Definition ascii_digit (c : ascii) : bool :=
  (48 <=? nat_of_ascii c)%nat && (nat_of_ascii c <=? 57)%nat.

(** [str(n)] and [int] of its text stay within the digit limit. *)
Definition fits (n : Z) : bool := (List.length (digits_N (Z.abs_N n)) <=? max_str_digits)%nat.

(** Value of a nonempty run of ASCII digits. *)
Definition digits_value (cs : list ascii) : option Z :=
  match cs with
  | [] => None
  | _ => match chars_uint cs with Some d => Some (Z.of_N (N.of_uint d)) | None => None end
  end.

(** [_PyUnicode_TransformDecimalAndSpaceToASCII], character by character: a
    code point below 127 is kept, a space becomes [" "], a decimal digit its
    ASCII digit, and any other code point ["?"] (which no parse accepts). *)
Definition to_ascii_char (c : Z) : ascii :=
  if c <? 127 then Uni.byte_of c
  else if Uni.isspace c then " "%char
  else match Uni.decimal c with
       | Some d => Uni.byte_of (48 + d)
       | None => "?"%char
       end.

(** [PyLong_FromString] in base 10 on the ASCII text: an optional sign and a
    run of digits; more than [max_str_digits] digits, or anything else, raise
    [ValueError]. (Whitespace and underscores, which [int] would also accept,
    never occur in the strings that reach it.) *)
Definition int_of_ascii (cs : list ascii) : res Z :=
  let '(sg, ds) := match cs with
                   | c :: r =>
                       if Ascii.eqb c "+" then (1, r)
                       else if Ascii.eqb c "-" then (-1, r)
                       else (1, cs)
                   | [] => (1, cs)
                   end in
  if (max_str_digits <? List.length ds)%nat then Err ValueError
  else match digits_value ds with Some z => Ok (sg * z) | None => Err ValueError end.

(** [int(s)] for a str. *)
Definition py_int_of_str (s : string) : res Z :=
  int_of_ascii (map to_ascii_char (Uni.cps s)).

(** [int(x)] for a float: truncation toward zero. *)
Definition py_int_of_float (f : float) : res Z :=
  match f with
  | S754_zero _ => Ok 0
  | S754_infinity _ => Err OverflowError
  | S754_nan => Err ValueError
  | S754_finite s m e =>
      let z := match e with
               | Zneg p => Z.div (Zpos m) (2 ^ Zpos p)
               | _ => Zpos m * 2 ^ e
               end in
      Ok (if s then - z else z)
  end.

Definition py_int (v : pyval) : res Z :=
  match v with
  | VInt z => Ok z
  | VFloat f => py_int_of_float f
  | VStr s => py_int_of_str s
  end.

End Dec.

(** ** app/checker.py: [check_expression] *)
Module Checker.
Import Py PyList Dec.

(** [operations = {"+" : 2, "-" : 2, "*" : 1, "/" : 1}] *)
Definition operations : list (string * Z) :=
  [("+"%string, 2); ("-"%string, 2); ("*"%string, 1); ("/"%string, 1)].

Definition op_prec (s : string) : option Z :=
  match find (fun kv => String.eqb (fst kv) s) operations with
  | Some (_, p) => Some p
  | None => None
  end.

Definition is_op (s : string) : bool :=
  match op_prec s with Some _ => true | None => false end.

(** [i.isdigit()] for a one-character str [i]. *)
Definition is_digit (c : Z) : bool := Uni.isdigit c.

(** The one-character str of a code point. *)
Definition str1 (c : Z) : string := string_of_list_ascii (Uni.encode c).

(** *** Shunting yard (lines 105-132)

    [out] is [output_queue]; [stk] is [operator_stack] with its top first. *)
Record tok_state := mk_tok { out : list string; stk : list string; was_num : bool }.

Inductive tok_res :=
| TNext (st : tok_state)
| TReturn (ok : bool) (msg : string)
| TErr (e : exn).

(** [while operator_stack and operator_stack[-1] in operations and
    operations[operator_stack[-1]] <= operations[i]: output_queue.append(operator_stack.pop())] *)
Fixpoint pop_ops (p : Z) (o s : list string) : list string * list string :=
  match s with
  | top :: rest =>
      match op_prec top with
      | Some q => if q <=? p then pop_ops p (o ++ [top]) rest else (o, s)
      | None => (o, s)
      end
  | [] => (o, [])
  end.

(** [while operator_stack and operator_stack[-1] != "(": output_queue.append(operator_stack.pop())] *)
Fixpoint pop_to_paren (o s : list string) : list string * list string :=
  match s with
  | top :: rest =>
      if String.eqb top "(" then (o, s) else pop_to_paren (o ++ [top]) rest
  | [] => (o, [])
  end.

(** One iteration of [for i in expression:], [i] the code point [c]. *)
Definition tok_step (st : tok_state) (c : Z) : tok_res :=
  let i := str1 c in
  if is_digit c then
    if was_num st then
      match (x <- getitem (out st) (-1);; setitem (out st) (-1) (String.append x i)) with
      | Ok o => TNext (mk_tok o (stk st) (was_num st))
      | Err e => TErr e
      end
    else TNext (mk_tok (out st ++ [i]) (stk st) true)
  else
    match op_prec i with
    | Some p =>
        let '(o, s) := pop_ops p (out st) (stk st) in
        TNext (mk_tok o (i :: s) false)
    | None =>
        if c =? 40 then TNext (mk_tok (out st) (i :: stk st) false)          (* "(" *)
        else if c =? 41 then                                                  (* ")" *)
          let '(o, s) := pop_to_paren (out st) (stk st) in
          match s with
          | [] => TReturn false "Brackets mismatched"
          | _ :: rest => TNext (mk_tok o rest false)
          end
        else TNext st
    end.

Fixpoint tokenize (st : tok_state) (cs : list Z) : tok_res :=
  match cs with
  | [] => TNext st
  | c :: r =>
      match tok_step st c with
      | TNext st' => tokenize st' r
      | t => t
      end
  end.

Definition tok_init : tok_state := mk_tok [] [] false.

(** [output_queue.extend(operator_stack[::-1])]: the stack, top first. *)
Definition postfix_of (st : tok_state) : list string := out st ++ stk st.

(** *** Post-fix evaluation (lines 137-159), in place on [output_queue] *)

Inductive loop_out :=
| LDone (q : list pyval) (nums : list Z)
| LReturn (ok : bool) (msg : string) (nums : list Z)
| LRaise (e : exn) (nums : list Z).

(** The card list as the loop leaves it. *)
Definition loop_nums (o : loop_out) : list Z :=
  match o with LDone _ n | LReturn _ _ n | LRaise _ n => n end.

Definition is_op_val (v : pyval) : bool :=
  match v with VStr s => is_op s | _ => false end.

(** The [match output_queue.pop(i):] cases. *)
Definition case_op (v : pyval) : option (pyval -> pyval -> res pyval) :=
  match v with
  | VStr s =>
      if String.eqb s "+" then Some py_add
      else if String.eqb s "-" then Some py_sub
      else if String.eqb s "*" then Some py_mul
      else if String.eqb s "/" then Some py_truediv
      else None
  | _ => None
  end.

(** [output_queue.insert(i - 2, output_queue.pop(i - 2) OP output_queue.pop(i - 2))] *)
Definition reduce_at (op : pyval -> pyval -> res pyval) (q : list pyval) (i : Z)
  : res (list pyval) :=
  ap <- pop q (i - 2);;
  let '(a, q2) := ap in
  bp <- pop q2 (i - 2);;
  let '(b, q3) := bp in
  r <- op a b;;
  Ok (insert q3 (i - 2) r).

(** [output_queue[i] = int(output_queue[i])] *)
Definition to_int_at (q : list pyval) (i : Z) : res (Z * list pyval) :=
  v <- getitem q i;;
  n <- py_int v;;
  q' <- setitem q i (VInt n);;
  Ok (n, q').

Fixpoint eval_loop (fuel : nat) (q : list pyval) (i : Z) (nums : list Z)
  : option loop_out :=
  match fuel with
  | O => None
  | S f =>
      if i <? Z.of_nat (List.length q) then
        match getitem q i with
        | Err e => Some (LRaise e nums)
        | Ok v =>
            if is_op_val v then
              match pop q i with
              | Err e => Some (LRaise e nums)
              | Ok (o, q1) =>
                  match case_op o with
                  | Some op =>
                      match reduce_at op q1 i with
                      | Ok q4 => eval_loop f q4 (i - 2 + 1) nums
                      | Err e => Some (LRaise e nums)
                      end
                  | None => eval_loop f q1 (i + 1) nums
                  end
              end
            else
              match to_int_at q i with
              | Err e => Some (LRaise e nums)
              | Ok (n, q') =>
                  if existsb (Z.eqb n) nums then
                    match remove_int nums n with
                    | Ok nums' => eval_loop f q' (i + 1) nums'
                    | Err e => Some (LRaise e nums)
                    end
                  else Some (LReturn false "Numbers mismatched" nums)
              end
        end
      else Some (LDone q nums)
  end.

(** Enough iterations for the loop: each iteration either advances [i] or
    shortens the queue by two (see [eval_loop_fuel_enough]). *)
Definition loop_measure (len : nat) (i : Z) : nat :=
  let n := Z.of_nat len in
  if i <? n then Z.to_nat ((n - i) + n * (2 * n + 1) + 1) else 1%nat.

(** Python float literals [23.9] and [24.1]: the binary64 numbers nearest to
    239/10 and 241/10. *)
Definition float_lit (num den : Z) : float :=
  match int_truediv num den with Ok f => f | Err _ => S754_nan end.

Definition lit_23_9 : pyval := VFloat (float_lit 239 10).
Definition lit_24_1 : pyval := VFloat (float_lit 241 10).

(** Outcome of a call: a returned pair, or a raised exception. *)
Inductive outcome :=
| Returned (ok : bool) (msg : string)
| Raised (e : exn)
| OutOfFuel.

(** [print(v)] for a value the loop leaves in the queue (a number): [str]
    of an int raises past the digit limit. *)
Definition py_print (v : pyval) : res unit :=
  match v with
  | VInt z => _ <- py_str_int z;; Ok tt
  | _ => Ok tt
  end.

(** Lines 161-169, after the evaluation loop. *)
Definition finish (q : list pyval) (nums : list Z) : res outcome :=
  v0 <- getitem q 0;; _ <- py_print v0;;                 (* print(output_queue[0]) *)
  if (0 <? Z.of_nat (List.length nums)) then Ok (Returned false "Didn't use all the cards")
  else
    v <- getitem q 0;;
    hi <- py_ge lit_24_1 v;;
    if hi then
      lo <- py_ge v lit_23_9;;
      Ok (if lo then Returned true "Correct!" else Returned false "Result not 24")
    else Ok (Returned false "Result not 24").

(** [check_expression(nums, expression)]: the outcome, and the caller's list
    [nums] as left by the call ([nums.remove] mutates it in place). *)
Definition check_expression (nums : list Z) (expression : string) : outcome * list Z :=
  match tokenize tok_init (Uni.cps expression) with
  | TReturn ok msg => (Returned ok msg, nums)
  | TErr e => (Raised e, nums)
  | TNext st =>
      let q := map VStr (postfix_of st) in
      match eval_loop (loop_measure (List.length q) 0) q 0 nums with
      | None => (OutOfFuel, nums)
      | Some (LRaise e n) => (Raised e, n)
      | Some (LReturn ok msg n) => (Returned ok msg, n)
      | Some (LDone q' n) =>
          match finish q' n with
          | Ok r => (r, n)
          | Err e => (Raised e, n)
          end
      end
  end.

End Checker.

(** ** app/solver.py: [gather] and [solve24] *)
Module Solver.
Import Py PyList Dec Checker.

(** A search element [[value, text]]. *)
Definition elem := (pyval * string)%type.

(** [x == y] on two elements: lists compare item by item. *)
Definition elem_eq (x y : elem) : bool :=
  py_num_eq (fst x) (fst y) && String.eqb (snd x) (snd y).

(** [remaining.remove(card)] where [card] is the object stored at index [k]:
    the first element that is [card] itself (index [k]) or equal to it is removed. *)
Fixpoint remove_obj (l : list elem) (k : nat) (card : elem) : res (list elem) :=
  match l with
  | [] => Err ValueError
  | y :: r =>
      match k with
      | O => Ok r
      | S k' =>
          if elem_eq y card then Ok r
          else match remove_obj r k' card with
               | Ok r' => Ok (y :: r')
               | Err e => Err e
               end
      end
  end.

(** [f"({a} {op} {b})"] *)
Definition fmt (a op b : string) : string :=
  String.append "(" (String.append a (String.append " "
    (String.append op (String.append " " (String.append b ")"))))).

(** [possible_vals] for the pair [card1], [card2] (lines 12-19). *)
Definition possible_vals (card1 card2 : elem) : res (list elem) :=
  let '(x, tx) := card1 in
  let '(y, ty) := card2 in
  v1 <- py_add x y;;
  v2 <- py_sub x y;;
  v3 <- py_sub y x;;
  v4 <- py_mul x y;;
  d1 <- (if py_truthy y then v <- py_truediv x y;; Ok [(v, fmt tx "/" ty)] else Ok []);;
  d2 <- (if py_truthy x then v <- py_truediv y x;; Ok [(v, fmt ty "/" tx)] else Ok []);;
  Ok ([(v1, fmt tx "+" ty); (v2, fmt tx "-" ty); (v3, fmt ty "-" tx); (v4, fmt tx "*" ty)]
        ++ d1 ++ d2).

Definition nth_res {A : Type} (l : list A) (k : nat) : res A :=
  match nth_error l k with Some x => Ok x | None => Err IndexError end.

(** The body of the inner loop for [first_num = i], [second_num = j]. *)
Definition gather_pair (nums : list elem) (i j : nat) : res (list (list elem)) :=
  card1 <- nth_res nums i;;
  card2 <- nth_res nums j;;
  r1 <- remove_obj nums i card1;;
  r2 <- remove_obj r1 (j - 1) card2;;
  pv <- possible_vals card1 card2;;
  Ok (map (fun p => p :: r2) pv).

(** The index pairs visited by the two nested loops, in order. *)
Definition pairs (n : nat) : list (nat * nat) :=
  flat_map (fun i => map (fun j => (i, j)) (seq (S i) (n - S i))) (seq 0 n).

Fixpoint gather_pairs (nums : list elem) (ps : list (nat * nat)) : res (list (list elem)) :=
  match ps with
  | [] => Ok []
  | (i, j) :: r =>
      a <- gather_pair nums i j;;
      b <- gather_pairs nums r;;
      Ok (a ++ b)
  end.

Definition gather (nums : list elem) : res (list (list elem)) :=
  gather_pairs nums (pairs (List.length nums)).

(** Python float literals [23.9999] and [24.0001]. *)
Definition lit_23_9999 : pyval := VFloat (float_lit 239999 10000).
Definition lit_24_0001 : pyval := VFloat (float_lit 240001 10000).

(** [23.9999 <= v <= 24.0001] *)
Definition near_24 (v : pyval) : res bool :=
  lo <- py_le lit_23_9999 v;;
  if lo then py_le v lit_24_0001 else Ok false.

(** The [while len(stack) != 0] loop; [stack] is held top first, so
    [stack.extend(g)] puts the last element of [g] on top. *)
Fixpoint solve_loop (fuel : nat) (stack : list (list elem)) : option (res (option string)) :=
  match fuel with
  | O => None
  | S f =>
      match stack with
      | [] => Some (Ok None)
      | top :: rest =>
          if Nat.eqb (List.length top) 1 then
            match top with
            | solution :: _ =>
                match near_24 (fst solution) with
                | Ok true => Some (Ok (Some (snd solution)))
                | Ok false => solve_loop f rest
                | Err e => Some (Err e)
                end
            | [] => solve_loop f rest
            end
          else
            match gather top with
            | Ok g => solve_loop f (rev g ++ rest)
            | Err e => Some (Err e)
            end
      end
  end.

(** A bound on the number of states the search can pop, starting from [n]
    elements: a state of [k] elements has at most [3 k (k - 1)] successors. *)
Fixpoint states_bound (n : nat) : nat :=
  match n with
  | O => 1
  | S k => 1 + 3 * S k * k * states_bound k
  end.

Inductive solve_result :=
| Solved (s : string)
| NoSolution
| SRaised (e : exn)
| SOutOfFuel.

(** [[[i, str(i)] for i in nums]] *)
Fixpoint card_elems (nums : list Z) : res (list elem) :=
  match nums with
  | [] => Ok []
  | i :: rest => s <- py_str_int i;; r <- card_elems rest;; Ok ((VInt i, s) :: r)
  end.

(** [solve24(nums)] *)
Definition solve24 (nums : list Z) : solve_result :=
  match card_elems nums with
  | Err e => SRaised e
  | Ok ns =>
  match gather ns with
  | Err e => SRaised e
  | Ok st =>
      match solve_loop (states_bound (List.length nums)) (rev st) with
      | None => SOutOfFuel
      | Some (Ok (Some s)) => Solved s
      | Some (Ok None) => NoSolution
      | Some (Err e) => SRaised e
      end
  end
  end.

End Solver.

(** ** Well-formed expressions (the input language of §4.1)

    The usual precedence grammar
      [E := E + T | E - T | T], [T := T * F | T / F | F],  [F := number | ( E )],
    printed with an arbitrary run [sep] of ignorable characters around each
    binary operator. [pyeval_*] evaluates with the program's own Python
    operations; [real_value_*] is the exact rational ("real-valued")
    evaluation the spec speaks of. *)
Module Grammar.
Import Py PyList Dec Checker.

Inductive addop := OAdd | OSub.
Inductive mulop := OMul | ODiv.

Inductive gexpr :=
| EAdd (e : gexpr) (o : addop) (t : gterm)
| ETerm (t : gterm)
with gterm :=
| TMul (t : gterm) (o : mulop) (f : gfactor)
| TFac (f : gfactor)
with gfactor :=
| FNum (n : N)
| FParen (e : gexpr).

Definition addop_char (o : addop) : ascii :=
  match o with OAdd => "+"%char | OSub => "-"%char end.
Definition mulop_char (o : mulop) : ascii :=
  match o with OMul => "*"%char | ODiv => "/"%char end.

Fixpoint print_e (sep : list ascii) (e : gexpr) : list ascii :=
  match e with
  | EAdd e o t => print_e sep e ++ sep ++ addop_char o :: sep ++ print_t sep t
  | ETerm t => print_t sep t
  end
with print_t (sep : list ascii) (t : gterm) : list ascii :=
  match t with
  | TMul t o f => print_t sep t ++ sep ++ mulop_char o :: sep ++ print_f sep f
  | TFac f => print_f sep f
  end
with print_f (sep : list ascii) (f : gfactor) : list ascii :=
  match f with
  | FNum n => digits_N n
  | FParen e => "("%char :: print_e sep e ++ [")"%char]
  end.

Fixpoint leaves_e (e : gexpr) : list Z :=
  match e with
  | EAdd e _ t => leaves_e e ++ leaves_t t
  | ETerm t => leaves_t t
  end
with leaves_t (t : gterm) : list Z :=
  match t with
  | TMul t _ f => leaves_t t ++ leaves_f f
  | TFac f => leaves_f f
  end
with leaves_f (f : gfactor) : list Z :=
  match f with
  | FNum n => [Z.of_N n]
  | FParen e => leaves_e e
  end.

Definition addop_fn (o : addop) : pyval -> pyval -> res pyval :=
  match o with OAdd => py_add | OSub => py_sub end.
Definition mulop_fn (o : mulop) : pyval -> pyval -> res pyval :=
  match o with OMul => py_mul | ODiv => py_truediv end.

Fixpoint pyeval_e (e : gexpr) : res pyval :=
  match e with
  | EAdd e o t => a <- pyeval_e e;; b <- pyeval_t t;; addop_fn o a b
  | ETerm t => pyeval_t t
  end
with pyeval_t (t : gterm) : res pyval :=
  match t with
  | TMul t o f => a <- pyeval_t t;; b <- pyeval_f f;; mulop_fn o a b
  | TFac f => pyeval_f f
  end
with pyeval_f (f : gfactor) : res pyval :=
  match f with
  | FNum n => Ok (VInt (Z.of_N n))
  | FParen e => pyeval_e e
  end.

Definition q_div (a b : Q) : option Q :=
  if Qeq_bool b 0 then None else Some (a / b)%Q.

Fixpoint real_value_e (e : gexpr) : option Q :=
  match e with
  | EAdd e o t =>
      match real_value_e e, real_value_t t with
      | Some a, Some b => Some (match o with OAdd => a + b | OSub => a - b end)%Q
      | _, _ => None
      end
  | ETerm t => real_value_t t
  end
with real_value_t (t : gterm) : option Q :=
  match t with
  | TMul t o f =>
      match real_value_t t, real_value_f f with
      | Some a, Some b => match o with OMul => Some (a * b)%Q | ODiv => q_div a b end
      | _, _ => None
      end
  | TFac f => real_value_f f
  end
with real_value_f (f : gfactor) : option Q :=
  match f with
  | FNum n => Some (inject_Z (Z.of_N n))
  | FParen e => real_value_e e
  end.

(** The closed window [23.9, 24.1] as the code compares: [24.1 >= v >= 23.9]
    between Python numbers. *)
Definition in_window (v : pyval) : bool :=
  match py_ge lit_24_1 v, py_ge v lit_23_9 with
  | Ok true, Ok true => true
  | _, _ => false
  end.

(** Reverse Polish form of an expression, one string per number or operator. *)
Fixpoint post_e (e : gexpr) : list string :=
  match e with
  | EAdd e o t => post_e e ++ post_t t ++ [str1 (Uni.byte (addop_char o))]
  | ETerm t => post_t t
  end
with post_t (t : gterm) : list string :=
  match t with
  | TMul t o f => post_t t ++ post_f f ++ [str1 (Uni.byte (mulop_char o))]
  | TFac f => post_f f
  end
with post_f (f : gfactor) : list string :=
  match f with
  | FNum n => [string_of_list_ascii (digits_N n)]
  | FParen e => post_e e
  end.

(** The operator stack [s] stops [pop_ops p]: its top is no operator of
    precedence at most [p]. *)
Definition stops (p : Z) (s : list string) : bool :=
  match s with
  | top :: _ => match op_prec top with Some q => p <? q | None => true end
  | [] => true
  end.

Definition is_num (v : pyval) : Prop :=
  match v with VStr _ => False | _ => True end.

(** Running the evaluation loop over the postfix form [post] of a
    subexpression, starting at its first item with evaluated values [pre] to
    its left, either replaces [post] by the value of the subexpression and
    consumes its literals [lv] from the card list, or raises its error. *)
Definition evals_to (post : list string) (val : res pyval) (lv : list Z) : Prop :=
  forall (pre : list pyval) (rest : list pyval) (nums others : list Z) (fuel : nat),
    Permutation nums (lv ++ others) ->
    let i := Z.of_nat (List.length pre) in
    match val return Prop with
    | Ok v =>
        is_num v /\
        exists nums', Permutation nums' others /\
        eval_loop (List.length post + fuel) (pre ++ map VStr post ++ rest) i nums
        = eval_loop fuel (pre ++ v :: rest) (i + 1) nums'
    | Err err =>
        exists n, eval_loop (List.length post + fuel) (pre ++ map VStr post ++ rest) i nums
                  = Some (LRaise err n)
    end.

(** The code points the tokenizer skips. *)
Definition ignorable (c : Z) : bool :=
  negb (is_digit c) && negb (is_op (str1 c)) && negb (c =? 40) && negb (c =? 41).

(** An ASCII character the tokenizer skips, as may separate the tokens of a
    printed expression. *)
Definition sep_char (a : ascii) : bool := (Uni.byte a <? 128) && ignorable (Uni.byte a).

End Grammar.

(** ** Expression trees behind the solver's texts *)
Module Tree.
Import Py Dec Checker Solver Grammar.

Inductive binop := BAdd | BSub | BMul | BDiv.

Inductive stree :=
| SLeaf (z : Z)
| SNode (o : binop) (l r : stree).

Definition binop_str (o : binop) : string :=
  match o with BAdd => "+" | BSub => "-" | BMul => "*" | BDiv => "/" end.

Definition binop_fn (o : binop) : pyval -> pyval -> res pyval :=
  match o with BAdd => py_add | BSub => py_sub | BMul => py_mul | BDiv => py_truediv end.

(** The text the solver writes for a tree: [str(n)] at a leaf, [f"({l} {op} {r})"] at a node. *)
Fixpoint sprint (t : stree) : string :=
  match t with
  | SLeaf z => string_of_list_ascii (str_Z z)
  | SNode o l r => fmt (sprint l) (binop_str o) (sprint r)
  end.

Fixpoint seval (t : stree) : res pyval :=
  match t with
  | SLeaf z => Ok (VInt z)
  | SNode o l r => a <- seval l;; b <- seval r;; binop_fn o a b
  end.

Fixpoint sleaves (t : stree) : list Z :=
  match t with
  | SLeaf z => [z]
  | SNode _ l r => sleaves l ++ sleaves r
  end.

Definition is_zero_num (v : pyval) : bool :=
  match v with
  | VInt z => Z.eqb z 0
  | VFloat f => is_zero f
  | VStr _ => false
  end.

(** No division node of the tree has a divisor whose value is zero. *)
Fixpoint no_zero_div (t : stree) : bool :=
  match t with
  | SLeaf _ => true
  | SNode o l r =>
      no_zero_div l && no_zero_div r &&
      match o with
      | BDiv => match seval r with Ok v => negb (is_zero_num v) | Err _ => false end
      | _ => true
      end
  end.

(** Parentheses never close more than they opened, and all are closed. *)
Fixpoint parens_ok (d : nat) (cs : list ascii) : bool :=
  match cs with
  | [] => Nat.eqb d 0
  | c :: r =>
      if Ascii.eqb c "(" then parens_ok (S d) r
      else if Ascii.eqb c ")" then match d with O => false | S d' => parens_ok d' r end
      else parens_ok d r
  end.

Definition balanced (s : string) : bool := parens_ok 0 (list_ascii_of_string s).

Definition starts_with_digit (cs : list ascii) : bool :=
  match cs with c :: _ => ascii_digit c | [] => false end.

(** A search element and a tree behind it: the element's text is the tree's
    text, its value the tree's value, and no division of the tree is by zero. *)
Definition elem_tree (x : elem) (t : stree) : Prop :=
  snd x = sprint t /\ seval t = Ok (fst x) /\ no_zero_div t = true.

(** A search state built from [cards]: trees behind its elements whose
    leaves, together, are the cards. *)
Definition state_inv (cards : list Z) (st : list elem) : Prop :=
  exists ts, Forall2 elem_tree st ts /\ Permutation (flat_map sleaves ts) cards.

(** A solver text read in the grammar of well-formed expressions, with one
    space around each operator (for trees with non-negative leaves). *)
Fixpoint gfactor_of_stree (t : stree) : gfactor :=
  match t with
  | SLeaf z => FNum (Z.to_N z)
  | SNode o l r =>
      FParen
        match o with
        | BAdd => EAdd (ETerm (TFac (gfactor_of_stree l))) OAdd (TFac (gfactor_of_stree r))
        | BSub => EAdd (ETerm (TFac (gfactor_of_stree l))) OSub (TFac (gfactor_of_stree r))
        | BMul => ETerm (TMul (TFac (gfactor_of_stree l)) OMul (gfactor_of_stree r))
        | BDiv => ETerm (TMul (TFac (gfactor_of_stree l)) ODiv (gfactor_of_stree r))
        end
  end.

End Tree.

(** ** Reading the checker's input *)
Module Scan.
Import Checker.


(** The same scan over code points. *)
Fixpoint unmatched_close_cps (d : nat) (cs : list Z) : bool :=
  match cs with
  | [] => false
  | c :: r =>
      if c =? 40 then unmatched_close_cps (S d) r
      else if c =? 41 then
        match d with O => true | S d' => unmatched_close_cps d' r end
      else unmatched_close_cps d r
  end.

(** The number of [(] entries on the operator stack. *)
Definition count_open (s : list string) : nat :=
  List.length (filter (fun x => String.eqb x "(") s).

(** The messages [check_expression] can return. *)
Definition messages_false : list string :=
  ["Brackets mismatched"; "Numbers mismatched"; "Didn't use all the cards"; "Result not 24"]%string.

End Scan.

(** ** app/generator.py *)
Module Generator.
Import Py Solver.

(** [[random.randint(1, 13) for _ in range(4)]], reading the draws of the
    random generator from position [k]: [draw k] is the [k]-th value
    [random.randint(1, 13)] returns (after [random.seed(seed)] when a seed is
    given). *)
Definition hand (draw : nat -> Z) (k : nat) : list Z :=
  [draw k; draw (k + 1)%nat; draw (k + 2)%nat; draw (k + 3)%nat].

(** [while solver.solve24(cards) == None: cards = [...]]; [None] when the
    loop has not ended within [fuel] iterations. *)
Fixpoint gen_loop (fuel : nat) (draw : nat -> Z) (k : nat) (cards : list Z)
  : option (res (list Z)) :=
  match fuel with
  | O => None
  | S f =>
      match solve24 cards with
      | NoSolution => gen_loop f draw (k + 4)%nat (hand draw k)
      | Solved _ => Some (Ok cards)
      | SRaised e => Some (Err e)
      | SOutOfFuel => None
      end
  end.

(** [generate_puzzle(seed)] *)
Definition generate_puzzle (fuel : nat) (draw : nat -> Z) : option (res (list Z)) :=
  gen_loop fuel draw 4 (hand draw 0).

End Generator.

(** ** app/versus.py: rounds and attempts in a room

    A room is handled under its lock, so its handlers run one after the
    other; the model runs them in sequence. Dicts are association lists
    with Python's semantics (assignment keeps a key's place, a new key goes
    last); web sockets are left out, and the players whose socket fails
    during a broadcast are given as a list [dead]. *)
Module Versus.
Import Py Checker.

Definition dict_get {V : Type} (d : list (string * V)) (k : string) : option V :=
  match find (fun kv => String.eqb (fst kv) k) d with
  | Some (_, v) => Some v
  | None => None
  end.

(** [d[k] = v] *)
Fixpoint dict_set {V : Type} (d : list (string * V)) (k : string) (v : V) : list (string * V) :=
  match d with
  | [] => [(k, v)]
  | (k', v') :: r => if String.eqb k' k then (k', v) :: r else (k', v') :: dict_set r k v
  end.

(** [d.pop(k, None)] *)
Definition dict_pop {V : Type} (d : list (string * V)) (k : string) : list (string * V) :=
  filter (fun kv => negb (String.eqb (fst kv) k)) d.

(** [d.setdefault(k, v)] *)
Definition dict_setdefault {V : Type} (d : list (string * V)) (k : string) (v : V)
  : list (string * V) :=
  match dict_get d k with Some _ => d | None => d ++ [(k, v)] end.

(** The fields of [Room] that the round logic reads or writes ([clients] by
    its keys, the player ids). *)
Record room := mk_room {
  room_id : string;
  mode : string;
  clients : list string;
  names : list (string * string);
  scores : list (string * Z);
  nums : list Z;
  round_active : bool;
  round_id : string;
  coop_correct : Z
}.

Definition drop_player (r : room) (pid : string) : room :=
  mk_room (room_id r) (mode r) (filter (fun p => negb (String.eqb p pid)) (clients r))
    (dict_pop (names r) pid) (dict_pop (scores r) pid) (nums r) (round_active r)
    (round_id r) (coop_correct r).

(** [send_to_room(room, payload)]: the players whose send fails are dropped
    from [clients], [names] and [scores]. *)
Definition send_to_room (r : room) (dead : list string) : room :=
  fold_left drop_player
    (filter (fun pid => existsb (String.eqb pid) dead) (clients r)) r.

(** [start_round(room)], with [hand] the value of [generate_puzzle()] and
    [rid] the fresh round id; two broadcasts follow. *)
Definition start_round (r : room) (hand : list Z) (rid : string) (dead1 dead2 : list string)
  : room :=
  let r1 := mk_room (room_id r) (mode r) (clients r) (names r) (scores r) hand true rid
              (coop_correct r) in
  send_to_room (send_to_room r1 dead1) dead2.

(** Lines 200-230: a player joins with a fresh id and their name; a round is
    started when none is running. *)
Definition join (r : room) (pid name : string) (dead : list string)
    (hand : list Z) (rid : string) (dead1 dead2 : list string) : room :=
  let clients' := if existsb (String.eqb pid) (clients r) then clients r
                  else clients r ++ [pid] in
  let r1 := mk_room (room_id r) (mode r) clients' (dict_set (names r) pid name)
              (dict_setdefault (scores r) pid 0) (nums r) (round_active r) (round_id r)
              (coop_correct r) in
  let r2 := send_to_room r1 dead in
  if negb (round_active r2) || (match nums r2 with [] => true | _ => false end)
  then start_round r2 hand rid dead1 dead2
  else r2.

(** [ok, message = check_expression(list(r.nums), expr)], any exception
    giving [(False, "Error checking expression.")]. *)
Definition verdict (cards : list Z) (expr : string) : bool * string :=
  match fst (check_expression cards expr) with
  | Returned ok msg => (ok, msg)
  | Raised _ | OutOfFuel => (false, "Error checking expression."%string)
  end.

(** What handling one attempt does: the [attemptResult] reply sent to the
    player, the room afterwards, and whether [next_round_soon] was
    scheduled; or an exception raised after the reply. *)
Inductive attempt_out :=
| AReply (reply : bool * string) (r : room) (next_round : bool)
| ARaise (reply : bool * string) (e : exn) (r : room).

Definition set_inactive (r : room) : room :=
  mk_room (room_id r) (mode r) (clients r) (names r) (scores r) (nums r) false
    (round_id r) (coop_correct r).

(** Lines 242-293, for a message [{"type": "attempt", ...}] whose
    [str(msg.get("expression", ""))] is [raw]. *)
Definition attempt (r : room) (pid raw : string) (dead : list string) : attempt_out :=
  let expr := Uni.of_cps (firstn 256 (Uni.cps raw)) in
  if negb (round_active r) then
    AReply (false, "Round already solved. Wait for the next round."%string) r false
  else
    let '(ok, message) := verdict (nums r) expr in
    if ok then
      let r1 := set_inactive r in
      let r2 :=
        if String.eqb (mode r1) "versus" then
          mk_room (room_id r1) (mode r1) (clients r1) (names r1)
            (dict_set (scores r1) pid
               (match dict_get (scores r1) pid with Some s => s | None => 0 end + 1))
            (nums r1) (round_active r1) (round_id r1) (coop_correct r1)
        else
          mk_room (room_id r1) (mode r1) (clients r1) (names r1) (scores r1)
            (nums r1) (round_active r1) (round_id r1) (coop_correct r1 + 1) in
      match dict_get (names r2) pid with
      | None => ARaise (ok, message) KeyError r2
      | Some _ => AReply (ok, message) (send_to_room r2 dead) true
      end
    else AReply (ok, message) r false.


End Versus.

(** * [versus.py]: creating, joining and entering rooms *)

Module Lobby.
Import Py Versus.
Local Open Scope string_scope.

(** [str.lower()] on ASCII letters. Strings are UTF-8 byte strings; the
    bytes of a non-ASCII character are left alone, and no non-ASCII
    character lowers to one of the letters of "coop", so [normalize_mode]
    below decides as the source does on any text. *)
Definition lower_char (c : ascii) : ascii :=
  let n := nat_of_ascii c in
  if (65 <=? n)%nat && (n <=? 90)%nat then ascii_of_nat (n + 32) else c.

Definition lower (s : string) : string :=
  string_of_list_ascii (map lower_char (list_ascii_of_string s)).

Definition normalize_mode (mode : string) : string :=
  if String.eqb (lower mode) "coop"%string then "coop"%string else "versus"%string.

Definition room_key (room mode : string) : string :=
  String.append mode (String.append ":" room).

Fixpoint drop_space (cs : list Z) : list Z :=
  match cs with
  | c :: r => if Uni.isspace c then drop_space r else cs
  | [] => []
  end.

(** [str.strip()], on code points. *)
Definition strip_cps (cs : list Z) : list Z := rev (drop_space (rev (drop_space cs))).

Definition strip (s : string) : string := Uni.of_cps (strip_cps (Uni.cps s)).

(** The fields of [Room] set by [create_room] and read by [join_room]. *)
Record lobby_room := mk_lobby_room {
  l_id : string;
  l_mode : string;
  password_salt : option string;
  password_hash : option string
}.

Record join_token := mk_join_token {
  jt_token : string;
  jt_room_key : string;
  jt_name : string;
  issued_at_ms : Z;
  ttl_ms : Z
}.

(** [ttl_ms: int = 2 * 60 * 60 * 1000] *)
Definition default_ttl_ms : Z := 2 * 60 * 60 * 1000.

(** [JoinToken.expired]: [time.time() * 1000 > self.issued_at_ms + self.ttl_ms],
    [now] the float [time.time() * 1000], compared exactly with the int. *)
Definition expired (now : float) (jt : join_token) : bool :=
  match num_xval (VFloat now), num_xval (VInt (issued_at_ms jt + ttl_ms jt)) with
  | Some x, Some y => match xcmp x y with Some Gt => true | _ => false end
  | _, _ => false
  end.

Inductive http_exception := HTTPException (status_code : Z) (detail : string).

Section Rest.
(** [hash_password(password, salt)], a SHA-256 hex digest. *)
Variable hash_password : string -> string -> string.

(** [create_room(body)] on the room table [ROOMS], with [salt] the value of
    [secrets.token_hex(16)]: the new table and [(roomId, mode)]. *)
Definition create_room (ROOMS : list (string * lobby_room))
    (body_room body_mode body_password salt : string)
  : http_exception + (list (string * lobby_room) * (string * string)) :=
  let room := strip body_room in
  let mode := normalize_mode body_mode in
  if String.eqb room "" then inl (HTTPException 400 "Room ID required.")
  else if String.eqb body_password "" then inl (HTTPException 400 "Password must be used.")
  else
    let key := room_key room mode in
    match dict_get ROOMS key with
    | Some _ => inl (HTTPException 400 "Room already exists.")
    | None =>
        let r := mk_lobby_room room mode (Some salt) (Some (hash_password body_password salt)) in
        inr (dict_set ROOMS key r, (room, mode))
    end.

Definition present (o : option string) : bool :=
  match o with Some s => negb (String.eqb s "") | None => false end.

(** [join_room(body)] on [ROOMS] and [TOKENS], with [token] the value of
    [secrets.token_urlsafe(24)] and [now] that of [int(time.time() * 1000)]
    (the name is [(body.name or "").strip()[:24] or "Player"]):
    the new token table and [(token, roomId, mode, name)]. *)
Definition join_room (ROOMS : list (string * lobby_room)) (TOKENS : list (string * join_token))
    (body_room body_mode body_password body_name token : string) (now : Z)
  : http_exception + (list (string * join_token) * (string * string * string * string)) :=
  let room := strip body_room in
  let mode := normalize_mode body_mode in
  let key := room_key room mode in
  match dict_get ROOMS key with
  | None => inl (HTTPException 404 "Room not found.")
  | Some r =>
      if negb (present (password_hash r)) || negb (present (password_salt r)) then
        inl (HTTPException 400 "Room misconfigured.")
      else
        let salt := match password_salt r with Some s => s | None => "" end in
        let h := match password_hash r with Some s => s | None => "" end in
        if negb (String.eqb (hash_password body_password salt) h) then
          inl (HTTPException 403 "Invalid password.")
        else
          let name0 := Uni.of_cps (firstn 24 (strip_cps (Uni.cps body_name))) in
          let name := if String.eqb name0 "" then "Player"%string else name0 in
          inr (dict_set TOKENS token (mk_join_token token key name now default_ttl_ms),
               (token, room, mode, name))
  end.
End Rest.

(** Lines 180-198 of [ws_room]: the socket is closed with [4403] or [4404],
    or the player enters the room under that key with the token's name. *)
Inductive entry := Close (code : Z) | Enter (key name : string).

Definition ws_entry (ROOMS : list (string * lobby_room)) (TOKENS : list (string * join_token))
    (token : option string) (now : float) : entry :=
  match token with
  | None => Close 4403
  | Some t =>
      if String.eqb t "" then Close 4403 else
      match dict_get TOKENS t with
      | None => Close 4403
      | Some jt =>
          if expired now jt then Close 4403 else
          match dict_get ROOMS (jt_room_key jt) with
          | None => Close 4404
          | Some _ => Enter (jt_room_key jt) (jt_name jt)
          end
      end
  end.

End Lobby.

(** * Properties *)

Import Py PyList Dec Checker Solver Grammar Tree Scan.

Lemma remove_int_existsb (l : list Z) (x : Z) :
  existsb (Z.eqb x) l = true -> exists l', remove_int l x = Ok l'.
Proof.
  induction l as [|y r IH]; simpl; [discriminate|].
  rewrite Z.eqb_sym.
  destruct (Z.eqb y x); [eauto|].
  simpl; intros H; destruct (IH H) as [l' ->]; eauto.
Qed.

(** ** Concrete runs *)

(** C1: the check compares a float, not the exact real value, with the
    window. The real value of [241000000000000001/10000000000000000*1*1]
    lies above 24.1, yet the check accepts it: the quotient is rounded to the
    binary64 number nearest to 24.1, which is the literal [24.1] the code
    compares with. *)
Lemma C1_real_window_counterexample :
  let e := ETerm (TMul (TMul (TMul (TFac (FNum 241000000000000001))
                                    ODiv (FNum 10000000000000000))
                              OMul (FNum 1)) OMul (FNum 1)) in
  let cards := [241000000000000001; 10000000000000000; 1; 1] in
  string_of_list_ascii (print_e [] e) = "241000000000000001/10000000000000000*1*1"%string /\
  Permutation (leaves_e e) cards /\
  real_value_e e = Some (241000000000000001 # 10000000000000000)%Q /\
  (241 # 10 < 241000000000000001 # 10000000000000000)%Q /\
  check_expression cards (string_of_list_ascii (print_e [] e)) = (Returned true "Correct!", []).
Proof.
  intros e cards.
  split; [vm_compute; reflexivity|].
  split; [apply Permutation_refl|].
  split; [vm_compute; reflexivity|].
  split; [reflexivity|].
  vm_compute; reflexivity.
Qed.

(** C2 (counterexample): with a negative card the solver writes the literal
    [-1], which the checker reads as a binary minus; the round trip raises
    [TypeError] instead of returning [(True, "Correct!")]. *)
Lemma C2_negative_card_counterexample :
  solve24 [-1; 25; 1; 1] = Solved "((-1 + 25) / (1 / 1))" /\
  check_expression [-1; 25; 1; 1] "((-1 + 25) / (1 / 1))" = (Raised TypeError, [-1; 25; 1]).
Proof. split; vm_compute; reflexivity. Qed.

(** C5: a letter after a correct expression is skipped by the tokenizer and the
    expression is accepted. *)
Lemma C5_letter_accepted :
  check_expression [1; 3; 4; 6] "6/(1-3/4)x" = (Returned true "Correct!", []).
Proof. vm_compute; reflexivity. Qed.

(** C6: an unclosed parenthesis is drained into the postfix queue and reaches
    [int("(")], which raises [ValueError]. *)
Lemma C6_unclosed_paren_raises :
  check_expression [1; 3; 4; 6] "(6/(1-3/4" = (Raised ValueError, []).
Proof. vm_compute; reflexivity. Qed.

(** C7 (counterexample): a successful check empties the caller's list. *)
Lemma C7_cards_consumed_counterexample :
  check_expression [1; 3; 4; 6] "(6/(1-3/4))" = (Returned true "Correct!", []) /\
  ([] : list Z) <> [1; 3; 4; 6].
Proof. split; [vm_compute; reflexivity | discriminate]. Qed.

(** C8: the search over [1, 1, 1, 1] empties its work list and returns [None]. *)
Theorem C8_solve_1111_none : solve24 [1; 1; 1; 1] = NoSolution.
Proof. vm_compute; reflexivity. Qed.

(** C3: faults are not converted into a [(False, message)] pair. For every
    list of cards, the empty expression and each lone operator raise
    [IndexError]; a leading unary minus such as ["-5"] raises [IndexError]
    whenever 5 is a card, and otherwise returns [(False, "Numbers mismatched")]. *)
Theorem C3_faults_propagate (cards : list Z) :
  fst (check_expression cards "") = Raised IndexError /\
  fst (check_expression cards "+") = Raised IndexError /\
  fst (check_expression cards "-") = Raised IndexError /\
  fst (check_expression cards "*") = Raised IndexError /\
  fst (check_expression cards "/") = Raised IndexError /\
  fst (check_expression cards "-5") =
    (if existsb (Z.eqb 5) cards then Raised IndexError
     else Returned false "Numbers mismatched").
Proof.
  do 5 (split; [reflexivity|]).
  unfold check_expression; simpl.
  destruct (existsb (Z.eqb 5) cards) eqn:E; [|reflexivity].
  destruct (remove_int_existsb _ _ E) as [l' Hl]; rewrite Hl; reflexivity.
Qed.

(** ** The caller's card list *)

Lemma remove_int_perm (l l' : list Z) (x : Z) :
  remove_int l x = Ok l' -> Permutation l (x :: l').
Proof.
  revert l'; induction l as [|y r IH]; intros l' H; simpl in H; [discriminate|].
  destruct (Z.eqb y x) eqn:E.
  - apply Z.eqb_eq in E; subst; injection H as <-; reflexivity.
  - destruct (remove_int r x) as [r'|e] eqn:R; [|discriminate].
    injection H as <-.
    rewrite (IH r' eq_refl).
    apply perm_swap.
Qed.

Ltac same_nums H :=
  injection H as <-; exists []; rewrite app_nil_r; reflexivity.

(** Every run of the evaluation loop leaves a sub-multiset of the card list. *)
Lemma eval_loop_nums (fuel : nat) (q : list pyval) (i : Z) (nums : list Z) (o : loop_out) :
  eval_loop fuel q i nums = Some o ->
  exists removed, Permutation nums (loop_nums o ++ removed).
Proof.
  revert q i nums; induction fuel as [|f IH]; intros q i nums H; simpl in H; [discriminate|].
  destruct (i <? Z.of_nat (List.length q)); [|same_nums H].
  destruct (getitem q i) as [v|e]; [|same_nums H].
  destruct (is_op_val v).
  - destruct (pop q i) as [[o' q1]|e]; [|same_nums H].
    destruct (case_op o') as [op|]; [|exact (IH _ _ _ H)].
    destruct (reduce_at op q1 i) as [q4|e]; [exact (IH _ _ _ H)|same_nums H].
  - destruct (to_int_at q i) as [[n q']|e]; [|same_nums H].
    destruct (existsb (Z.eqb n) nums); [|same_nums H].
    destruct (remove_int nums n) as [nums'|e] eqn:R; [|same_nums H].
    destruct (IH _ _ _ H) as [r Hr].
    exists (n :: r).
    rewrite (remove_int_perm _ _ _ R), Hr.
    apply Permutation_middle.
Qed.

Lemma tokenize_return_false (st : tok_state) (cs : list Z) (ok : bool) (msg : string) :
  tokenize st cs = TReturn ok msg -> ok = false.
Proof.
  revert st; induction cs as [|c r IH]; intros st H; simpl in H; [discriminate|].
  destruct (tok_step st c) as [st'|ok' msg'|e] eqn:S; [exact (IH _ H)| |discriminate].
  injection H as <- <-.
  unfold tok_step in S.
  destruct (is_digit c); [destruct (was_num st); [destruct (bind _ _)|]; discriminate|].
  destruct (op_prec (str1 c)); [destruct (pop_ops _ _ _); discriminate|].
  destruct (c =? 40); [discriminate|].
  destruct (c =? 41); [|discriminate].
  destruct (pop_to_paren _ _) as [o [|x s]]; [|discriminate].
  injection S as <- _; reflexivity.
Qed.

(** C7 (amended): [check_expression] removes from the caller's list one
    occurrence of each card matched by a literal. Whatever the expression, the
    list afterwards is a sub-multiset of the list before, and after a
    [(True, "Correct!")] result it is empty. *)
Theorem C7_cards_submultiset (cards : list Z) (expression : string) :
  let '(r, after) := check_expression cards expression in
  (exists removed, Permutation cards (after ++ removed)) /\
  match r with Returned true _ => after = [] | _ => True end.
Proof.
  unfold check_expression.
  destruct (tokenize tok_init (Uni.cps expression)) as [st|ok msg|e] eqn:T.
  2: rewrite (tokenize_return_false _ _ _ _ T);
     split; [exists []; rewrite app_nil_r; reflexivity|trivial].
  2: split; [exists []; rewrite app_nil_r; reflexivity|trivial].
  - destruct (eval_loop _ _ _ _) as [o|] eqn:L.
    2: split; [exists []; rewrite app_nil_r; reflexivity|trivial].
    pose proof (eval_loop_nums _ _ _ _ _ L) as Hsub.
    destruct o as [q' n|ok msg n|e]; simpl in Hsub.
    + destruct (finish q' n) as [r|e] eqn:F; (split; [exact Hsub|]).
      * unfold finish in F.
        destruct (getitem q' 0); [|discriminate]; simpl in F.
        destruct (py_print a); [|discriminate]; simpl in F.
        destruct n as [|x n']; [destruct r as [[|] ?|?|]; trivial|].
        simpl in F; injection F as <-; trivial.
      * trivial.
    + split; [exact Hsub|].
      destruct ok; [|trivial].
      (* the loop only returns "Numbers mismatched", with ok = false *)
      clear Hsub; revert L; generalize (loop_measure (List.length (map VStr (postfix_of st))) 0).
      generalize (map VStr (postfix_of st)) as q, 0 as i, cards as nums.
      intros q i nums fuel; revert q i nums.
      induction fuel as [|f IH]; intros q i nums L; simpl in L; [discriminate|].
      destruct (i <? _); [|discriminate].
      destruct (getitem q i) as [v|e]; [|discriminate].
      destruct (is_op_val v).
      * destruct (pop q i) as [[o' q1]|e]; [|discriminate].
        destruct (case_op o') as [op|]; [|exact (IH _ _ _ L)].
        destruct (reduce_at op q1 i) as [q4|e]; [exact (IH _ _ _ L)|discriminate].
      * destruct (to_int_at q i) as [[k q'']|e]; [|discriminate].
        destruct (existsb (Z.eqb k) nums); [|discriminate].
        destruct (remove_int nums k) as [nums'|e]; [exact (IH _ _ _ L)|discriminate].
    + split; [exact Hsub|trivial].
Qed.

(** ** The evaluation loop always has enough fuel *)

Lemma norm_index_lt (n : nat) (i : Z) (k : nat) :
  norm_index n i = Some k -> (k < n)%nat.
Proof.
  unfold norm_index.
  destruct (0 <=? _) eqn:A, (_ <? Z.of_nat n) eqn:B; simpl; try discriminate.
  intros H; injection H as <-.
  apply Z.leb_le in A; apply Z.ltb_lt in B; lia.
Qed.

Lemma pop_length {A : Type} (l l' : list A) (i : Z) (x : A) :
  pop l i = Ok (x, l') -> S (List.length l') = List.length l.
Proof.
  unfold pop.
  destruct (norm_index (List.length l) i) as [k|] eqn:N; [|discriminate].
  destruct (nth_error l k); [|discriminate].
  intros H; injection H as <- <-.
  apply norm_index_lt in N.
  rewrite length_app, length_firstn.
  destruct l as [|y l0]; simpl in *; [lia|]; rewrite length_skipn; lia.
Qed.

Lemma insert_length {A : Type} (l : list A) (i : Z) (x : A) :
  List.length (insert l i x) = S (List.length l).
Proof.
  unfold insert.
  rewrite length_app; simpl; rewrite length_firstn, length_skipn.
  destruct (i <? 0); lia.
Qed.

Lemma setitem_length {A : Type} (l l' : list A) (i : Z) (x : A) :
  setitem l i x = Ok l' -> List.length l' = List.length l.
Proof.
  unfold setitem.
  destruct (norm_index (List.length l) i) as [k|] eqn:N; [|discriminate].
  intros H; injection H as <-.
  apply norm_index_lt in N.
  rewrite length_app, length_firstn; simpl.
  destruct l as [|y l0]; simpl in *; [lia|]; rewrite length_skipn; lia.
Qed.

Lemma reduce_at_length op q i q4 :
  reduce_at op q i = Ok q4 -> S (List.length q4) = List.length q.
Proof.
  unfold reduce_at.
  destruct (pop q (i - 2)) as [[a q2]|e] eqn:P1; simpl; [|discriminate].
  destruct (pop q2 (i - 2)) as [[b q3]|e] eqn:P2; simpl; [|discriminate].
  destruct (op a b); simpl; [|discriminate].
  intros H; injection H as <-.
  rewrite insert_length.
  apply pop_length in P1; apply pop_length in P2; lia.
Qed.

Lemma to_int_at_length q i n q' :
  to_int_at q i = Ok (n, q') -> List.length q' = List.length q.
Proof.
  unfold to_int_at.
  destruct (getitem q i); simpl; [|discriminate].
  destruct (py_int _); simpl; [|discriminate].
  destruct (setitem q i _) eqn:S; simpl; [|discriminate].
  intros H; injection H as _ <-.
  exact (setitem_length _ _ _ _ S).
Qed.

Lemma getitem_length {A : Type} (l : list A) (i : Z) (x : A) :
  getitem l i = Ok x -> (1 <= List.length l)%nat.
Proof.
  unfold getitem.
  destruct (norm_index (List.length l) i) as [k|] eqn:N; [|discriminate].
  intros _; apply norm_index_lt in N; lia.
Qed.

Lemma loop_measure_pos (len : nat) (i : Z) : (1 <= loop_measure len i)%nat.
Proof.
  unfold loop_measure.
  destruct (i <? Z.of_nat len) eqn:E; [|lia].
  apply Z.ltb_lt in E.
  assert (0 <= Z.of_nat len * (2 * Z.of_nat len + 1)) by nia.
  lia.
Qed.

Lemma eval_loop_fuel_enough (fuel : nat) (q : list pyval) (i : Z) (nums : list Z) :
  (loop_measure (List.length q) i <= fuel)%nat -> eval_loop fuel q i nums <> None.
Proof.
  revert q i nums; induction fuel as [|f IH]; intros q i nums Hf.
  { pose proof (loop_measure_pos (List.length q) i); lia. }
  simpl.
  unfold loop_measure in Hf.
  destruct (i <? Z.of_nat (List.length q)) eqn:Hi; [|discriminate].
  apply Z.ltb_lt in Hi.
  destruct (getitem q i) as [v|e] eqn:G; [|discriminate].
  apply getitem_length in G.
  destruct (is_op_val v).
  - destruct (pop q i) as [[o q1]|e] eqn:P; [|discriminate].
    apply pop_length in P.
    destruct (case_op o) as [op|].
    + destruct (reduce_at op q1 i) as [q4|e] eqn:R; [|discriminate].
      apply reduce_at_length in R.
      apply IH; unfold loop_measure.
      destruct (i - 2 + 1 <? Z.of_nat (List.length q4)); [|lia].
      apply Nat.lt_succ_r.
      eapply Nat.lt_le_trans; [|exact Hf].
      apply Z2Nat.inj_lt; nia.
    + apply IH; unfold loop_measure.
      destruct (i + 1 <? Z.of_nat (List.length q1)); [|lia].
      apply Nat.lt_succ_r.
      eapply Nat.lt_le_trans; [|exact Hf].
      apply Z2Nat.inj_lt; nia.
  - destruct (to_int_at q i) as [[n q']|e] eqn:T; [|discriminate].
    apply to_int_at_length in T.
    destruct (existsb (Z.eqb n) nums); [|discriminate].
    destruct (remove_int nums n); [|discriminate].
    apply IH; unfold loop_measure; rewrite T.
    destruct (i + 1 <? Z.of_nat (List.length q)) eqn:Hi'; [|lia].
    apply Z.ltb_lt in Hi'.
    apply Nat.lt_succ_r.
    eapply Nat.lt_le_trans; [|exact Hf].
    apply Z2Nat.inj_lt; nia.
Qed.

(** [check_expression] never runs out of fuel: [OutOfFuel] is not an outcome. *)
Lemma check_expression_total (cards : list Z) (expression : string) :
  fst (check_expression cards expression) <> OutOfFuel.
Proof.
  unfold check_expression.
  destruct (tokenize _ _) as [st|ok msg|e]; simpl; try discriminate.
  destruct (eval_loop _ _ _ _) as [o|] eqn:L.
  - destruct o as [q' n|ok msg n|e]; simpl; try discriminate.
    destruct (finish q' n) as [r|e] eqn:F; simpl; [|discriminate].
    unfold finish in F.
    destruct (getitem q' 0) as [v|e]; simpl in F; [|discriminate].
    destruct (py_print v); simpl in F; [|discriminate].
    destruct (0 <? _); [injection F as <-; discriminate|].
    destruct (py_ge lit_24_1 v) as [hi|e]; simpl in F; [|discriminate].
    destruct hi; [|injection F as <-; discriminate].
    destruct (py_ge v lit_23_9) as [lo|e]; simpl in F; [|discriminate].
    injection F as <-; destruct lo; discriminate.
  - exfalso; revert L; apply eval_loop_fuel_enough; lia.
Qed.

(** ** Python list operations at a known position *)

Lemma firstn_prefix {A : Type} (pre l : list A) : firstn (List.length pre) (pre ++ l) = pre.
Proof. induction pre as [|x pre IH]; simpl; [reflexivity | now rewrite IH]. Qed.

Lemma skipn_prefix {A : Type} (pre l : list A) : skipn (List.length pre) (pre ++ l) = l.
Proof. induction pre as [|x pre IH]; simpl; [reflexivity | exact IH]. Qed.

Lemma nth_error_prefix {A : Type} (pre rest : list A) (x : A) :
  nth_error (pre ++ x :: rest) (List.length pre) = Some x.
Proof. induction pre as [|y pre IH]; simpl; [reflexivity | exact IH]. Qed.

Lemma norm_index_mid (n k : nat) : (k < n)%nat -> norm_index n (Z.of_nat k) = Some k.
Proof.
  intros H; unfold norm_index.
  replace (Z.of_nat k <? 0) with false by (symmetry; apply Z.ltb_ge; lia).
  replace ((0 <=? Z.of_nat k) && (Z.of_nat k <? Z.of_nat n)) with true
    by (symmetry; apply andb_true_iff; split; [apply Z.leb_le | apply Z.ltb_lt]; lia).
  now rewrite Nat2Z.id.
Qed.

Lemma norm_index_last (k : nat) : norm_index (S k) (-1) = Some k.
Proof.
  unfold norm_index; replace (-1 <? 0) with true by reflexivity; cbv beta iota zeta.
  replace (-1 + Z.of_nat (S k)) with (Z.of_nat k) by lia.
  replace ((0 <=? Z.of_nat k) && (Z.of_nat k <? Z.of_nat (S k))) with true
    by (symmetry; apply andb_true_iff; split; [apply Z.leb_le | apply Z.ltb_lt]; lia).
  now rewrite Nat2Z.id.
Qed.

Lemma length_mid {A : Type} (pre rest : list A) (x : A) :
  (List.length pre < List.length (pre ++ x :: rest))%nat.
Proof. rewrite length_app; simpl; lia. Qed.

Lemma getitem_mid {A : Type} (pre rest : list A) (x : A) :
  getitem (pre ++ x :: rest) (Z.of_nat (List.length pre)) = Ok x.
Proof.
  unfold getitem; rewrite norm_index_mid by apply length_mid.
  now rewrite nth_error_prefix.
Qed.

Lemma pop_mid {A : Type} (pre rest : list A) (x : A) :
  pop (pre ++ x :: rest) (Z.of_nat (List.length pre)) = Ok (x, pre ++ rest).
Proof.
  unfold pop; rewrite norm_index_mid by apply length_mid.
  rewrite nth_error_prefix, firstn_prefix.
  replace (S (List.length pre)) with (List.length (pre ++ [x])) by (rewrite length_app; simpl; lia).
  replace (pre ++ x :: rest) with ((pre ++ [x]) ++ rest) by (rewrite <- app_assoc; reflexivity).
  now rewrite skipn_prefix.
Qed.

Lemma setitem_mid {A : Type} (pre rest : list A) (x y : A) :
  setitem (pre ++ x :: rest) (Z.of_nat (List.length pre)) y = Ok (pre ++ y :: rest).
Proof.
  unfold setitem; rewrite norm_index_mid by apply length_mid.
  rewrite firstn_prefix.
  replace (S (List.length pre)) with (List.length (pre ++ [x])) by (rewrite length_app; simpl; lia).
  replace (pre ++ x :: rest) with ((pre ++ [x]) ++ rest) by (rewrite <- app_assoc; reflexivity).
  now rewrite skipn_prefix.
Qed.

Lemma insert_mid {A : Type} (pre rest : list A) (x : A) :
  insert (pre ++ rest) (Z.of_nat (List.length pre)) x = pre ++ x :: rest.
Proof.
  unfold insert.
  replace (Z.of_nat (List.length pre) <? 0) with false by (symmetry; apply Z.ltb_ge; lia).
  rewrite length_app, Z.min_l by lia.
  now rewrite Nat2Z.id, firstn_prefix, skipn_prefix.
Qed.

Lemma getitem_last {A : Type} (l : list A) (x : A) : getitem (l ++ [x]) (-1) = Ok x.
Proof.
  unfold getitem; rewrite length_app, Nat.add_1_r, norm_index_last.
  now rewrite (nth_error_prefix l [] x).
Qed.

Lemma setitem_last {A : Type} (l : list A) (x y : A) : setitem (l ++ [x]) (-1) y = Ok (l ++ [y]).
Proof.
  unfold setitem; rewrite length_app, Nat.add_1_r, norm_index_last.
  rewrite firstn_prefix.
  replace (S (List.length l)) with (List.length (l ++ [x])) by (rewrite length_app; simpl; lia).
  now rewrite skipn_all.
Qed.

(** ** Decimal literals *)

Lemma chars_uint_uint_chars (d : Decimal.uint) : chars_uint (uint_chars d) = Some d.
Proof. induction d; simpl; try rewrite IHd; reflexivity. Qed.

Lemma uint_chars_digits (d : Decimal.uint) : Forall (fun c => ascii_digit c = true) (uint_chars d).
Proof. induction d; simpl; constructor; auto. Qed.

Lemma string_of_app (l1 l2 : list ascii) :
  string_of_list_ascii (l1 ++ l2) =
  String.append (string_of_list_ascii l1) (string_of_list_ascii l2).
Proof. induction l1 as [|c l1 IH]; simpl; [reflexivity | now rewrite IH]. Qed.

Lemma digits_N_cons (n : N) : exists d ds, digits_N n = d :: ds.
Proof.
  unfold digits_N; pose proof (DecimalN.Unsigned.of_to n) as H.
  destruct (N.to_uint n) eqn:E; simpl; eauto.
  simpl in H; subst n; discriminate E.
Qed.

Lemma digits_N_head (n : N) : exists c rest, digits_N n = c :: rest /\ ascii_digit c = true.
Proof.
  destruct (digits_N_cons n) as [c [rest E]].
  pose proof (uint_chars_digits (N.to_uint n)) as H; fold (digits_N n) in H.
  rewrite E in H; inversion H; eauto.
Qed.

Lemma digits_value_digits (n : N) : digits_value (digits_N n) = Some (Z.of_N n).
Proof.
  unfold digits_N; pose proof (DecimalN.Unsigned.of_to n) as H.
  rewrite <- H at 2.
  destruct (N.to_uint n) eqn:E; [simpl in H; subst n; discriminate E|..];
    unfold digits_value; cbn [uint_chars chars_uint]; rewrite chars_uint_uint_chars;
    reflexivity.
Qed.

Lemma digits_N_digits (n : N) : Forall (fun c => ascii_digit c = true) (digits_N n).
Proof. apply uint_chars_digits. Qed.


Lemma byte_of_byte (c : ascii) : Uni.byte_of (Uni.byte c) = c.
Proof. unfold Uni.byte_of, Uni.byte; rewrite Nat2Z.id; apply ascii_nat_embedding. Qed.

Lemma ascii_digit_byte (c : ascii) :
  ascii_digit c = true -> 48 <= Uni.byte c <= 57.
Proof.
  unfold ascii_digit, Uni.byte; intros H; apply andb_true_iff in H as [H1 H2].
  apply Nat.leb_le in H1, H2; lia.
Qed.

(** The code points of an ASCII text are its bytes. *)
Lemma decode_ascii (l : list ascii) :
  Forall (fun c => Uni.byte c < 128) l -> Uni.decode l = map Uni.byte l.
Proof.
  unfold Uni.decode; induction 1 as [|c l Hc H IH]; [reflexivity|].
  cbn [List.length Uni.decode_n]; unfold Uni.utf8_step at 1.
  replace (Uni.byte c <? 128) with true by (symmetry; apply Z.ltb_lt; exact Hc).
  rewrite IH; reflexivity.
Qed.

Lemma digits_N_ascii (n : N) : Forall (fun c => Uni.byte c < 128) (digits_N n).
Proof.
  eapply Forall_impl; [|apply digits_N_digits].
  intros c Hc; apply ascii_digit_byte in Hc; lia.
Qed.

Lemma to_ascii_char_byte (c : ascii) : Uni.byte c < 127 -> to_ascii_char (Uni.byte c) = c.
Proof.
  intros H; unfold to_ascii_char.
  replace (Uni.byte c <? 127) with true by (symmetry; apply Z.ltb_lt; exact H).
  apply byte_of_byte.
Qed.

(** [int(str(n))] gives [n] back for a natural number [n] of at most
    [max_str_digits] digits. *)
Lemma py_int_digits (n : N) :
  (List.length (digits_N n) <= max_str_digits)%nat ->
  py_int_of_str (string_of_list_ascii (digits_N n)) = Ok (Z.of_N n).
Proof.
  intros Hlen.
  unfold py_int_of_str, Uni.cps; rewrite list_ascii_of_string_of_list_ascii.
  rewrite decode_ascii by apply digits_N_ascii.
  rewrite map_map, (map_ext_in _ (fun c => c)), map_id.
  2: { intros c Hc; apply to_ascii_char_byte.
       apply (proj1 (Forall_forall _ _) (digits_N_digits n)), ascii_digit_byte in Hc; lia. }
  destruct (digits_N_head n) as [c [rest [E D]]].
  unfold int_of_ascii; rewrite E.
  apply ascii_digit_byte in D.
  replace (Ascii.eqb c "+") with false
    by (symmetry; apply Ascii.eqb_neq; intros ->; unfold Uni.byte in D; simpl in D; lia).
  replace (Ascii.eqb c "-") with false
    by (symmetry; apply Ascii.eqb_neq; intros ->; unfold Uni.byte in D; simpl in D; lia).
  rewrite <- E, digits_value_digits.
  replace (max_str_digits <? List.length (digits_N n))%nat with false
    by (symmetry; apply Nat.ltb_ge; exact Hlen).
  now rewrite Z.mul_1_l.
Qed.

Lemma digits_not_op (n : N) : is_op (string_of_list_ascii (digits_N n)) = false.
Proof.
  unfold digits_N; pose proof (DecimalN.Unsigned.of_to n) as H.
  destruct (N.to_uint n); reflexivity.
Qed.

(** ** The evaluation loop on a postfix form *)

Lemma index_in_range {A : Type} (pre rest : list A) (x : A) :
  (Z.of_nat (List.length pre) <? Z.of_nat (List.length (pre ++ x :: rest))) = true.
Proof. apply Z.ltb_lt; rewrite length_app; simpl; lia. Qed.

(** A literal at the loop's index is converted, found among the cards and removed. *)
Lemma eval_leaf_step (fuel : nat) (pre rest : list pyval) (n : N) (nums nums' : list Z) :
  fits (Z.of_N n) = true ->
  existsb (Z.eqb (Z.of_N n)) nums = true ->
  remove_int nums (Z.of_N n) = Ok nums' ->
  eval_loop (S fuel) (pre ++ VStr (string_of_list_ascii (digits_N n)) :: rest)
    (Z.of_nat (List.length pre)) nums =
  eval_loop fuel (pre ++ VInt (Z.of_N n) :: rest) (Z.of_nat (List.length pre) + 1) nums'.
Proof.
  intros Hf Hin Hrem; cbn [eval_loop].
  rewrite index_in_range, getitem_mid; unfold is_op_val; rewrite digits_not_op.
  unfold to_int_at; rewrite getitem_mid; cbn [bind py_int].
  rewrite py_int_digits by (unfold fits in Hf; rewrite Zabs2N.id in Hf; apply Nat.leb_le, Hf).
  cbn [bind]; rewrite setitem_mid; cbn [bind].
  now rewrite Hin, Hrem.
Qed.

(** An operator at the loop's index combines the two values to its left. *)
Lemma eval_op_step (fuel : nat) (pre rest : list pyval) (a b : pyval) (s : string)
    (op : pyval -> pyval -> res pyval) (nums : list Z) :
  is_op s = true -> case_op (VStr s) = Some op ->
  eval_loop (S fuel) (pre ++ a :: b :: VStr s :: rest) (Z.of_nat (List.length pre) + 1 + 1) nums =
  match op a b with
  | Ok r => eval_loop fuel (pre ++ r :: rest) (Z.of_nat (List.length pre) + 1) nums
  | Err e => Some (LRaise e nums)
  end.
Proof.
  intros Hop Hcase.
  replace (pre ++ a :: b :: VStr s :: rest) with ((pre ++ [a; b]) ++ VStr s :: rest)
    by (rewrite <- app_assoc; reflexivity).
  replace (Z.of_nat (List.length pre) + 1 + 1) with (Z.of_nat (List.length (pre ++ [a; b])))
    by (rewrite length_app; simpl; lia).
  cbn [eval_loop].
  rewrite index_in_range, getitem_mid; unfold is_op_val; rewrite Hop.
  rewrite pop_mid, Hcase; unfold reduce_at.
  replace (Z.of_nat (List.length (pre ++ [a; b])) - 2) with (Z.of_nat (List.length pre))
    by (rewrite length_app; simpl; lia).
  rewrite <- app_assoc; cbn [app].
  rewrite pop_mid; cbn [bind]; rewrite pop_mid; cbn [bind].
  destruct (op a b); cbn [bind]; [rewrite insert_mid|]; reflexivity.
Qed.

Lemma evals_leaf (n : N) :
  fits (Z.of_N n) = true ->
  evals_to [string_of_list_ascii (digits_N n)] (Ok (VInt (Z.of_N n))) [Z.of_N n].
Proof.
  intros Hf pre rest nums others fuel HP; cbv zeta.
  split; [exact I|].
  assert (Hin : existsb (Z.eqb (Z.of_N n)) nums = true).
  { apply existsb_exists; exists (Z.of_N n); split; [|apply Z.eqb_refl].
    apply (Permutation_in _ (Permutation_sym HP)); left; reflexivity. }
  destruct (remove_int_existsb _ _ Hin) as [nums' Hrem].
  exists nums'; split.
  - apply (Permutation_cons_inv (a := Z.of_N n)).
    rewrite <- (remove_int_perm _ _ _ Hrem); exact HP.
  - exact (eval_leaf_step fuel pre rest n nums nums' Hf Hin Hrem).
Qed.

Lemma evals_bin (p1 p2 : list string) (r1 r2 : res pyval) (l1 l2 : list Z) (s : string)
    (op : pyval -> pyval -> res pyval) :
  evals_to p1 r1 l1 -> evals_to p2 r2 l2 ->
  is_op s = true -> case_op (VStr s) = Some op ->
  (forall a b r, is_num a -> is_num b -> op a b = Ok r -> is_num r) ->
  evals_to (p1 ++ p2 ++ [s]) (a <- r1;; b <- r2;; op a b) (l1 ++ l2).
Proof.
  intros H1 H2 Hop Hcase Hnum pre rest nums others fuel HP; cbv zeta.
  rewrite <- app_assoc in HP.
  rewrite !map_app, !length_app; cbn [map List.length].
  replace (List.length p1 + (List.length p2 + 1) + fuel)%nat
    with (List.length p1 + (List.length p2 + S fuel))%nat by lia.
  rewrite <- !app_assoc; cbn [app].
  specialize (H1 pre (map VStr p2 ++ VStr s :: rest) nums (l2 ++ others)
                (List.length p2 + S fuel)%nat HP); cbv zeta in H1.
  destruct r1 as [a|e1]; cbn [bind]; [|exact H1].
  destruct H1 as [Na [nums1 [P1 ->]]].
  specialize (H2 (pre ++ [a]) (VStr s :: rest) nums1 others (S fuel) P1); cbv zeta in H2.
  rewrite <- app_assoc in H2; cbn [app] in H2.
  replace (Z.of_nat (List.length (pre ++ [a]))) with (Z.of_nat (List.length pre) + 1) in H2
    by (rewrite length_app; simpl; lia).
  destruct r2 as [b|e2]; cbn [bind]; [|exact H2].
  destruct H2 as [Nb [nums2 [P2 ->]]].
  rewrite <- app_assoc; cbn [app].
  rewrite (eval_op_step fuel pre rest a b s op nums2 Hop Hcase).
  destruct (op a b) as [r|e] eqn:Eop.
  - split; [exact (Hnum a b r Na Nb Eop)|].
    exists nums2; split; [exact P2 | reflexivity].
  - exists nums2; reflexivity.
Qed.

(** The four operators map numbers to numbers. *)
Ltac num_result :=
  let a := fresh "a" in let b := fresh "b" in let r := fresh "r" in
  let Ha := fresh "Ha" in let Hb := fresh "Hb" in let H := fresh "H" in
  intros a b r Ha Hb H; destruct a, b; try contradiction;
  unfold py_add, py_sub, py_mul, py_truediv, bind in H;
  repeat match type of H with
         | context [match ?x with _ => _ end] => destruct x
         end;
  try discriminate; injection H as <-; exact I.

Lemma addop_num (o : addop) :
  forall a b r, is_num a -> is_num b -> addop_fn o a b = Ok r -> is_num r.
Proof. destruct o; simpl; num_result. Qed.

Lemma mulop_num (o : mulop) :
  forall a b r, is_num a -> is_num b -> mulop_fn o a b = Ok r -> is_num r.
Proof. destruct o; simpl; num_result. Qed.

Lemma addop_case (o : addop) :
  is_op (str1 (Uni.byte (addop_char o))) = true /\
  case_op (VStr (str1 (Uni.byte (addop_char o)))) = Some (addop_fn o).
Proof. destruct o; split; reflexivity. Qed.

Lemma mulop_case (o : mulop) :
  is_op (str1 (Uni.byte (mulop_char o))) = true /\
  case_op (VStr (str1 (Uni.byte (mulop_char o)))) = Some (mulop_fn o).
Proof. destruct o; split; reflexivity. Qed.

Scheme gexpr_mut := Induction for gexpr Sort Prop
  with gterm_mut := Induction for gterm Sort Prop
  with gfactor_mut := Induction for gfactor Sort Prop.
Combined Scheme grammar_mut from gexpr_mut, gterm_mut, gfactor_mut.

(** The loop evaluates the postfix form of every well-formed expression as the
    expression's own Python evaluation does. *)
Lemma grammar_evals :
  (forall e, forallb fits (leaves_e e) = true -> evals_to (post_e e) (pyeval_e e) (leaves_e e)) /\
  (forall t, forallb fits (leaves_t t) = true -> evals_to (post_t t) (pyeval_t t) (leaves_t t)) /\
  (forall f, forallb fits (leaves_f f) = true -> evals_to (post_f f) (pyeval_f f) (leaves_f f)).
Proof.
  apply grammar_mut; intros; simpl in *; auto.
  - rewrite forallb_app in H1; apply andb_true_iff in H1 as [H1 H2].
    destruct (addop_case o) as [Hop Hcase].
    exact (evals_bin _ _ _ _ _ _ _ _ (H H1) (H0 H2) Hop Hcase (addop_num o)).
  - rewrite forallb_app in H1; apply andb_true_iff in H1 as [H1 H2].
    destruct (mulop_case o) as [Hop Hcase].
    exact (evals_bin _ _ _ _ _ _ _ _ (H H1) (H0 H2) Hop Hcase (mulop_num o)).
  - apply evals_leaf; rewrite andb_true_r in H; exact H.
Qed.

(** ** The shunting yard on a well-formed expression *)

Lemma string_append_nil (s : string) : String.append s "" = s.
Proof. induction s as [|c s IH]; simpl; [reflexivity | now rewrite IH]. Qed.

Lemma string_append_assoc (a b c : string) :
  String.append (String.append a b) c = String.append a (String.append b c).
Proof. induction a as [|x a IH]; simpl; [reflexivity | now rewrite IH]. Qed.

Lemma tokenize_app (st : tok_state) (a b : list Z) :
  tokenize st (a ++ b) =
  match tokenize st a with TNext st' => tokenize st' b | t => t end.
Proof.
  revert st; induction a as [|c a IH]; intros st; simpl; [reflexivity|].
  destruct (tok_step st c); auto.
Qed.

Lemma op_prec_range (s : string) (q : Z) : op_prec s = Some q -> q = 1 \/ q = 2.
Proof.
  intros H; unfold op_prec, operations in H; cbn [find fst] in H.
  destruct (String.eqb "+" s); [injection H as <-; auto|].
  destruct (String.eqb "-" s); [injection H as <-; auto|].
  destruct (String.eqb "*" s); [injection H as <-; auto|].
  destruct (String.eqb "/" s); [injection H as <-; auto|].
  discriminate.
Qed.

Lemma is_op_not_paren (s : string) : is_op s = true -> String.eqb s "(" = false.
Proof. destruct (String.eqb_spec s "("); [subst; discriminate | reflexivity]. Qed.

Lemma pop_ops_app (p : Z) (o P S : list string) :
  Forall (fun s => exists q, op_prec s = Some q /\ q <= p) P -> stops p S = true ->
  pop_ops p o (P ++ S) = (o ++ P, S).
Proof.
  intros HP HS; revert o; induction HP as [|s P [q [Hq Hle]] HP IH]; intros o; simpl.
  - rewrite app_nil_r; destruct S as [|top S]; simpl in *; [reflexivity|].
    destruct (op_prec top); [|reflexivity].
    apply Z.ltb_lt in HS; replace (z <=? p) with false by (symmetry; apply Z.leb_gt; lia).
    reflexivity.
  - rewrite Hq; replace (q <=? p) with true by (symmetry; apply Z.leb_le; lia).
    rewrite IH, <- app_assoc; reflexivity.
Qed.

Lemma pop_to_paren_app (o P S : list string) :
  Forall (fun s => is_op s = true) P ->
  pop_to_paren o (P ++ "("%string :: S) = (o ++ P, "("%string :: S).
Proof.
  intros HP; revert o; induction HP as [|s P Hs HP IH]; intros o; simpl.
  - rewrite app_nil_r; reflexivity.
  - rewrite (is_op_not_paren s Hs), IH, <- app_assoc; reflexivity.
Qed.

Lemma addop_step (st : tok_state) (o : addop) :
  tok_step st (Uni.byte (addop_char o)) =
  let '(o', s) := pop_ops 2 (out st) (stk st) in
  TNext (mk_tok o' (str1 (Uni.byte (addop_char o)) :: s) false).
Proof. destruct o; reflexivity. Qed.

Lemma mulop_step (st : tok_state) (o : mulop) :
  tok_step st (Uni.byte (mulop_char o)) =
  let '(o', s) := pop_ops 1 (out st) (stk st) in
  TNext (mk_tok o' (str1 (Uni.byte (mulop_char o)) :: s) false).
Proof. destruct o; reflexivity. Qed.

Lemma str1_byte (c : ascii) : Uni.byte c < 128 -> str1 (Uni.byte c) = String c EmptyString.
Proof.
  intros H; unfold str1, Uni.encode.
  replace (Uni.byte c <? 128) with true by (symmetry; apply Z.ltb_lt; exact H).
  simpl; now rewrite byte_of_byte.
Qed.

Lemma ascii_digit_is_digit (c : ascii) : ascii_digit c = true -> is_digit (Uni.byte c) = true.
Proof.
  intros H; apply ascii_digit_byte in H.
  unfold is_digit, Uni.isdigit, Uni.in_ranges; apply existsb_exists.
  exists (48, 57); split; [left; reflexivity|].
  cbn [fst snd]; apply andb_true_iff; split; apply Z.leb_le; lia.
Qed.

Lemma tokenize_digits (ds : list ascii) (Q S : list string) (acc : string) :
  Forall (fun c => ascii_digit c = true) ds ->
  tokenize (mk_tok (Q ++ [acc]) S true) (map Uni.byte ds) =
  TNext (mk_tok (Q ++ [String.append acc (string_of_list_ascii ds)]) S true).
Proof.
  intros H; revert acc; induction H as [|c ds Hc H IH]; intros acc; simpl.
  - now rewrite string_append_nil.
  - unfold tok_step; cbv zeta; rewrite (ascii_digit_is_digit c Hc); cbn [was_num out stk].
    rewrite getitem_last; cbn [bind]; rewrite setitem_last.
    rewrite str1_byte by (apply ascii_digit_byte in Hc; lia).
    rewrite IH, string_append_assoc; reflexivity.
Qed.

Lemma tokenize_number (Q S : list string) (n : N) :
  tokenize (mk_tok Q S false) (map Uni.byte (digits_N n)) =
  TNext (mk_tok (Q ++ [string_of_list_ascii (digits_N n)]) S true).
Proof.
  pose proof (digits_N_digits n) as Hd.
  destruct (digits_N_cons n) as [d [ds E]]; rewrite E in *.
  inversion Hd as [|? ? Hc Hds]; subst.
  simpl; unfold tok_step at 1; cbv zeta; rewrite (ascii_digit_is_digit d Hc); cbn [was_num out stk].
  rewrite (tokenize_digits ds Q S (str1 (Uni.byte d)) Hds).
  rewrite str1_byte by (apply ascii_digit_byte in Hc; lia); reflexivity.
Qed.

Lemma ignorable_step (st : tok_state) (c : Z) :
  ignorable c = true -> tok_step st c = TNext st.
Proof.
  unfold ignorable, is_op, tok_step; intros H.
  destruct (is_digit c); [discriminate|].
  destruct (op_prec (str1 c)); [discriminate|].
  destruct (c =? 40); [discriminate|].
  destruct (c =? 41); [discriminate|reflexivity].
Qed.

Section Shunting.

Variable sep : list ascii.
Hypothesis Hsep : Forall (fun c => sep_char c = true) sep.

Lemma tokenize_sep (st : tok_state) : tokenize st (map Uni.byte sep) = TNext st.
Proof.
  induction Hsep as [|c cs Hc Hcs IH]; [reflexivity|].
  unfold sep_char in Hc; apply andb_true_iff in Hc as [_ Hc].
  simpl; rewrite (ignorable_step st _ Hc); exact (IH Hcs).
Qed.

(** Tokenizing a printed expression: the output queue receives a prefix [X]
    of the postfix form and the operator stack a pending suffix [P]. *)
Lemma shunting :
  (forall e Q S, stops 2 S = true ->
     exists X P w, tokenize (mk_tok Q S false) (map Uni.byte (print_e sep e)) = TNext (mk_tok (Q ++ X) (P ++ S) w) /\
                   X ++ P = post_e e /\ Forall (fun s => is_op s = true) P) /\
  (forall t Q S, stops 1 S = true ->
     exists X P w, tokenize (mk_tok Q S false) (map Uni.byte (print_t sep t)) = TNext (mk_tok (Q ++ X) (P ++ S) w) /\
                   X ++ P = post_t t /\ Forall (fun s => op_prec s = Some 1) P) /\
  (forall f Q S,
     exists w, tokenize (mk_tok Q S false) (map Uni.byte (print_f sep f)) = TNext (mk_tok (Q ++ post_f f) S w)).
Proof.
  apply grammar_mut.
  - (* EAdd *)
    intros e IHe o t IHt Q S HS.
    destruct (IHe Q S HS) as [X [P [w [T1 [XP FP]]]]].
    simpl print_e; rewrite !map_app; cbn [map]; rewrite !map_app.
    rewrite tokenize_app, T1, tokenize_app, tokenize_sep.
    cbn [tokenize]; rewrite addop_step; cbn [out stk].
    rewrite pop_ops_app; cycle 1.
    { eapply Forall_impl; [|exact FP]; intros s Hs.
      unfold is_op in Hs; destruct (op_prec s) as [q|] eqn:Hq; [|discriminate].
      exists q; split; [reflexivity|]; destruct (op_prec_range s q Hq); lia. }
    { exact HS. }
    rewrite tokenize_app, tokenize_sep.
    destruct (IHt ((Q ++ X) ++ P) (str1 (Uni.byte (addop_char o)) :: S)) as [Xt [Pt [wt [T2 [XPt FPt]]]]];
      [destruct o; reflexivity|].
    rewrite T2.
    exists (X ++ P ++ Xt), (Pt ++ [str1 (Uni.byte (addop_char o))]), wt; split; [|split].
    + now rewrite <- !app_assoc.
    + simpl post_e; rewrite <- XP, <- XPt, <- !app_assoc; reflexivity.
    + apply Forall_app; split.
      * eapply Forall_impl; [|exact FPt]; intros s Hs; unfold is_op; now rewrite Hs.
      * constructor; [destruct o; reflexivity | constructor].
  - (* ETerm *)
    intros t IHt Q S HS.
    destruct (IHt Q S) as [X [P [w [T1 [XP FP]]]]].
    { destruct S as [|top S]; [reflexivity|]; simpl in *.
      destruct (op_prec top); [apply Z.ltb_lt in HS; apply Z.ltb_lt; lia | reflexivity]. }
    exists X, P, w; split; [exact T1 | split; [exact XP|]].
    eapply Forall_impl; [|exact FP]; intros s Hs; unfold is_op; now rewrite Hs.
  - (* TMul *)
    intros t IHt o f IHf Q S HS.
    destruct (IHt Q S HS) as [X [P [w [T1 [XP FP]]]]].
    simpl print_t; rewrite !map_app; cbn [map]; rewrite !map_app.
    rewrite tokenize_app, T1, tokenize_app, tokenize_sep.
    cbn [tokenize]; rewrite mulop_step; cbn [out stk].
    rewrite pop_ops_app; cycle 1.
    { eapply Forall_impl; [|exact FP]; intros s Hs; exists 1; split; [exact Hs | lia]. }
    { exact HS. }
    rewrite tokenize_app, tokenize_sep.
    destruct (IHf ((Q ++ X) ++ P) (str1 (Uni.byte (mulop_char o)) :: S)) as [wf T2].
    rewrite T2.
    exists (X ++ P ++ post_f f), [str1 (Uni.byte (mulop_char o))], wf; split; [|split].
    + now rewrite <- !app_assoc.
    + simpl post_t; rewrite <- XP, <- !app_assoc; reflexivity.
    + constructor; [destruct o; reflexivity | constructor].
  - (* TFac *)
    intros f IHf Q S HS.
    destruct (IHf Q S) as [w T1].
    exists (post_f f), [], w; split; [exact T1 | split; [apply app_nil_r | constructor]].
  - (* FNum *)
    intros n Q S; exists true; exact (tokenize_number Q S n).
  - (* FParen *)
    intros e IHe Q S.
    destruct (IHe Q ("(" :: S)%string) as [X [P [w [T1 [XP FP]]]]]; [reflexivity|].
    exists false; simpl print_f; cbn [map tokenize]; rewrite map_app.
    change (tok_step (mk_tok Q S false) (Uni.byte "("%char))
      with (TNext (mk_tok Q ("(" :: S)%string false)).
    cbv iota; rewrite tokenize_app, T1.
    cbn [tokenize map]; unfold tok_step; cbv zeta.
    change (is_digit (Uni.byte ")")) with false.
    change (op_prec (str1 (Uni.byte ")"))) with (@None Z).
    change (Uni.byte ")" =? 40) with false; change (Uni.byte ")" =? 41) with true.
    cbv iota; cbn [out stk].
    rewrite pop_to_paren_app by exact FP.
    simpl post_f; rewrite <- XP, app_assoc; reflexivity.
Qed.

End Shunting.

(** ** The checker on a well-formed expression *)

Lemma py_ge_num (a b : pyval) : is_num a -> is_num b -> exists x, py_ge a b = Ok x.
Proof. destruct a, b; simpl; intros; try contradiction; eexists; reflexivity. Qed.

Lemma qge_le (p q : Q) :
  (match (p ?= q)%Q with Gt | Eq => true | Lt => false end) = true <-> (q <= p)%Q.
Proof.
  rewrite Qle_alt, <- (Qcompare_antisym q p).
  destruct (q ?= p)%Q; simpl; split; intros; congruence.
Qed.

(** An int within the window is 24. *)
Lemma window_int (z : Z) : in_window (VInt z) = true -> z = 24.
Proof.
  unfold in_window, py_ge; cbn [num_xval lit_24_1 lit_23_9].
  destruct (xval_of_float (float_lit 241 10)) as [qa| |] eqn:Ea;
    try (vm_compute in Ea; discriminate).
  destruct (xval_of_float (float_lit 239 10)) as [qb| |] eqn:Eb;
    try (vm_compute in Eb; discriminate).
  assert (Ha : (qa < inject_Z 25)%Q)
    by (vm_compute in Ea; injection Ea as <-; vm_compute; reflexivity).
  assert (Hb : (inject_Z 23 < qb)%Q)
    by (vm_compute in Eb; injection Eb as <-; vm_compute; reflexivity).
  cbn [xcmp].
  destruct (qa ?= inject_Z z)%Q eqn:C1; destruct (inject_Z z ?= qb)%Q eqn:C2;
    try discriminate; intros _.
  all: assert (L1 : (inject_Z z <= qa)%Q) by (apply qge_le; rewrite C1; reflexivity).
  all: assert (L2 : (qb <= inject_Z z)%Q) by (apply qge_le; rewrite C2; reflexivity).
  all: assert (U : z < 25) by (rewrite Zlt_Qlt; eapply Qle_lt_trans; eauto).
  all: assert (D : 23 < z) by (rewrite Zlt_Qlt; eapply Qlt_le_trans; eauto).
  all: lia.
Qed.

(** A number within the window prints. *)
Lemma window_print (v : pyval) : in_window v = true -> py_print v = Ok tt.
Proof.
  destruct v as [z|f|s]; intros H; [|reflexivity|reflexivity].
  rewrite (window_int z H); reflexivity.
Qed.

Lemma finish_single (v : pyval) :
  is_num v ->
  finish [v] [] =
  (_ <- py_print v;;
   Ok (if in_window v then Returned true "Correct!" else Returned false "Result not 24")).
Proof.
  intros Hv.
  destruct (py_ge_num lit_24_1 v I Hv) as [hi Hhi].
  destruct (py_ge_num v lit_23_9 Hv I) as [lo Hlo].
  assert (G : getitem [v] 0 = Ok v) by reflexivity.
  unfold finish, in_window; rewrite G, Hhi, Hlo; cbn [bind].
  destruct (py_print v) as [[]|e]; cbn [bind]; [|reflexivity].
  change (0 <? Z.of_nat (List.length (@nil Z))) with false; cbv iota.
  rewrite Hhi; cbn [bind].
  destruct hi; [rewrite Hlo; cbn [bind]; destruct lo|]; reflexivity.
Qed.

Lemma loop_measure_ge (len : nat) : (len + 1 <= loop_measure len 0)%nat.
Proof.
  unfold loop_measure.
  destruct (0 <? Z.of_nat len) eqn:E; [|lia].
  assert (0 <= Z.of_nat len * (2 * Z.of_nat len + 1)) by nia.
  lia.
Qed.

Lemma print_ascii (sep : list ascii) :
  Forall (fun c => sep_char c = true) sep ->
  (forall e, Forall (fun c => Uni.byte c < 128) (print_e sep e)) /\
  (forall t, Forall (fun c => Uni.byte c < 128) (print_t sep t)) /\
  (forall f, Forall (fun c => Uni.byte c < 128) (print_f sep f)).
Proof.
  intros Hs.
  assert (Hs' : Forall (fun c => Uni.byte c < 128) sep).
  { eapply Forall_impl; [|exact Hs]; intros c Hc.
    unfold sep_char in Hc; apply andb_true_iff in Hc as [Hc _]; apply Z.ltb_lt, Hc. }
  apply grammar_mut; intros; simpl print_e; simpl print_t; simpl print_f;
    repeat first [ apply Forall_app; split | apply Forall_cons | assumption | apply Forall_nil ].
  - destruct o; unfold Uni.byte; simpl; lia.
  - destruct o; unfold Uni.byte; simpl; lia.
  - eapply Forall_impl; [|apply digits_N_digits]; intros c Hc; apply ascii_digit_byte in Hc; lia.
  - unfold Uni.byte; simpl; lia.
  - unfold Uni.byte; simpl; lia.
Qed.

(** [check_expression] on a well-formed expression whose literals are the
    cards: the verdict of the tolerance window on the value the expression
    evaluates to (once printing that value succeeded), or the error its
    evaluation raises. *)
Lemma check_expression_grammar (sep : list ascii) (e : gexpr) (cards : list Z) :
  Forall (fun c => sep_char c = true) sep ->
  forallb fits (leaves_e e) = true ->
  Permutation (leaves_e e) cards ->
  match pyeval_e e with
  | Ok v =>
      check_expression cards (string_of_list_ascii (print_e sep e)) =
      (match py_print v with
       | Ok _ => if in_window v then Returned true "Correct!" else Returned false "Result not 24"
       | Err err => Raised err
       end, [])
  | Err err => fst (check_expression cards (string_of_list_ascii (print_e sep e))) = Raised err
  end.
Proof.
  intros Hsep Hfit Hperm.
  unfold check_expression, Uni.cps; rewrite list_ascii_of_string_of_list_ascii.
  rewrite decode_ascii by exact (proj1 (print_ascii sep Hsep) e).
  destruct (proj1 (shunting sep Hsep) e [] [] eq_refl) as [X [P [w [T [XP _]]]]].
  unfold tok_init; rewrite T; unfold postfix_of; cbn [out stk app].
  rewrite app_nil_r, XP; cbv zeta.
  rewrite length_map.
  pose proof (loop_measure_ge (List.length (post_e e))) as HL.
  replace (loop_measure (List.length (post_e e)) 0)
    with (List.length (post_e e) + S (loop_measure (List.length (post_e e)) 0
                                       - List.length (post_e e) - 1))%nat by lia.
  set (F := (loop_measure (List.length (post_e e)) 0 - List.length (post_e e) - 1)%nat).
  assert (HP : Permutation cards (leaves_e e ++ [])) by (rewrite app_nil_r; symmetry; exact Hperm).
  pose proof (proj1 grammar_evals e Hfit [] [] cards [] (S F) HP) as H; cbv zeta in H.
  cbn [app List.length Z.of_nat] in H; rewrite app_nil_r in H.
  destruct (pyeval_e e) as [v|err].
  - destruct H as [Hv [nums' [Pn ->]]].
    apply Permutation_sym, Permutation_nil in Pn; subst nums'.
    cbn [eval_loop app].
    change (0 + 1 <? Z.of_nat (List.length [v])) with false; cbv iota.
    rewrite finish_single by exact Hv.
    destruct (py_print v); reflexivity.
  - destruct H as [n ->]; reflexivity.
Qed.

Lemma forallb_sep_char (sep : list ascii) :
  forallb sep_char sep = true -> Forall (fun c => sep_char c = true) sep.
Proof. intros H; apply Forall_forall; intros c Hc; exact (proj1 (forallb_forall _ _) H c Hc). Qed.

(** ** The checker's verdict on well-formed expressions *)

(** C4: no dedicated message is returned for a division by zero, although
    the docstring calls it invalid. For every well-formed expression over the
    cards (ASCII ignorable characters around the operators, literals of at
    most 4300 digits) whose Python evaluation divides by a zero value before
    any other error, [check_expression] raises [ZeroDivisionError] to its
    caller. *)
Theorem C4_zero_division_propagates (sep : list ascii) (e : gexpr) (cards : list Z) :
  forallb sep_char sep = true ->
  forallb fits (leaves_e e) = true ->
  Permutation (leaves_e e) cards ->
  pyeval_e e = Err ZeroDivisionError ->
  fst (check_expression cards (string_of_list_ascii (print_e sep e))) = Raised ZeroDivisionError.
Proof.
  intros Hsep Hfit Hperm He.
  pose proof (check_expression_grammar sep e cards (forallb_sep_char sep Hsep) Hfit Hperm) as H.
  rewrite He in H; exact H.
Qed.

Lemma C4_zero_division_propagates_witness :
  let e := ETerm (TMul (TMul (TFac (FNum 1)) ODiv
             (FParen (EAdd (ETerm (TFac (FNum 4))) OSub (TFac (FNum 4))))) OMul (FNum 1)) in
  forallb sep_char [] = true /\
  forallb fits (leaves_e e) = true /\
  Permutation (leaves_e e) [1; 4; 4; 1] /\
  pyeval_e e = Err ZeroDivisionError /\
  string_of_list_ascii (print_e [] e) = "1/(4-4)*1"%string /\
  fst (check_expression [1; 4; 4; 1] (string_of_list_ascii (print_e [] e))) = Raised ZeroDivisionError.
Proof.
  intros e.
  split; [reflexivity|]; split; [vm_compute; reflexivity|]; split; [simpl; reflexivity|].
  split; [vm_compute; reflexivity|]; split; [vm_compute; reflexivity|].
  apply C4_zero_division_propagates;
    [reflexivity | vm_compute; reflexivity | simpl; reflexivity | vm_compute; reflexivity].
Defined.

(** ** The solver's texts determine their trees *)

Lemma list_ascii_append (a b : string) :
  list_ascii_of_string (String.append a b) = list_ascii_of_string a ++ list_ascii_of_string b.
Proof. induction a as [|c a IH]; simpl; [reflexivity | now rewrite IH]. Qed.

Lemma sprint_leaf_chars (z : Z) : list_ascii_of_string (sprint (SLeaf z)) = str_Z z.
Proof. simpl; apply list_ascii_of_string_of_list_ascii. Qed.

Lemma sprint_node_chars (o : binop) (l r : stree) :
  list_ascii_of_string (sprint (SNode o l r)) =
  "("%char :: list_ascii_of_string (sprint l) ++ " "%char :: list_ascii_of_string (binop_str o)
    ++ " "%char :: list_ascii_of_string (sprint r) ++ [")"%char].
Proof. simpl sprint; unfold fmt; rewrite !list_ascii_append; reflexivity. Qed.

Lemma str_Z_head (z : Z) :
  exists c rest, str_Z z = c :: rest /\ (ascii_digit c = true \/ c = "-"%char).
Proof.
  destruct z as [|p|p]; simpl;
    try (destruct (digits_N_head (Z.to_N (Z.pos p))) as [c [rest [E H]]]);
    try (destruct (digits_N_head 0) as [c [rest [E H]]]);
    eauto.
Qed.

Lemma digit_run_unique (l1 l2 r1 r2 : list ascii) :
  Forall (fun c => ascii_digit c = true) l1 -> Forall (fun c => ascii_digit c = true) l2 ->
  starts_with_digit r1 = false -> starts_with_digit r2 = false ->
  l1 ++ r1 = l2 ++ r2 -> l1 = l2 /\ r1 = r2.
Proof.
  intros H1; revert l2; induction H1 as [|c l1 Hc H1 IH]; intros l2 H2 S1 S2 E.
  - destruct H2 as [|c' l2 Hc' H2]; [auto|].
    simpl in E; subst r1; simpl in S1; congruence.
  - destruct H2 as [|c' l2 Hc' H2].
    + simpl in E; subst r2; simpl in S2; congruence.
    + simpl in E; injection E as <- E.
      destruct (IH l2 H2 S1 S2 E) as [-> ->]; auto.
Qed.

Lemma uint_chars_inj (d1 d2 : Decimal.uint) : uint_chars d1 = uint_chars d2 -> d1 = d2.
Proof.
  revert d2; induction d1; intros d2 H; destruct d2; simpl in H;
    try discriminate; try (injection H as H); f_equal; auto.
Qed.

Lemma digits_N_inj (n1 n2 : N) : digits_N n1 = digits_N n2 -> n1 = n2.
Proof.
  unfold digits_N; intros H; apply uint_chars_inj in H.
  rewrite <- (DecimalN.Unsigned.of_to n1), <- (DecimalN.Unsigned.of_to n2), H; reflexivity.
Qed.

Lemma str_Z_cases (z : Z) :
  (0 <= z /\ str_Z z = digits_N (Z.to_N z)) \/
  (exists p, z = Zneg p /\ str_Z z = "-"%char :: digits_N (Npos p)).
Proof. destruct z as [|p|p]; [left | left | right; exists p]; split; simpl; auto; lia. Qed.

Lemma digits_not_minus (n : N) (r : list ascii) (r' : list ascii) :
  digits_N n ++ r <> "-"%char :: r'.
Proof.
  destruct (digits_N_head n) as [c [rest [E H]]]; rewrite E; simpl; intros F.
  injection F as -> _; discriminate.
Qed.

Lemma str_Z_prefix (z1 z2 : Z) (r1 r2 : list ascii) :
  starts_with_digit r1 = false -> starts_with_digit r2 = false ->
  str_Z z1 ++ r1 = str_Z z2 ++ r2 -> z1 = z2 /\ r1 = r2.
Proof.
  intros S1 S2 E.
  destruct (str_Z_cases z1) as [[P1 E1] | [p1 [-> E1]]];
    destruct (str_Z_cases z2) as [[P2 E2] | [p2 [-> E2]]];
    rewrite E1, E2 in E; simpl in E.
  - destruct (digit_run_unique _ _ _ _ (digits_N_digits _) (digits_N_digits _) S1 S2 E) as [D ->].
    apply digits_N_inj, Z2N.inj in D; auto.
  - exfalso; exact (digits_not_minus _ _ _ E).
  - exfalso; exact (digits_not_minus _ _ _ (eq_sym E)).
  - injection E as E.
    destruct (digit_run_unique _ _ _ _ (digits_N_digits _) (digits_N_digits _) S1 S2 E) as [D ->].
    apply digits_N_inj in D; injection D as ->; auto.
Qed.

Lemma binop_str_prefix (o1 o2 : binop) (x y : list ascii) :
  list_ascii_of_string (binop_str o1) ++ x = list_ascii_of_string (binop_str o2) ++ y ->
  o1 = o2 /\ x = y.
Proof. destruct o1, o2; simpl; intros H; inversion H; auto. Qed.

Lemma str_Z_not_paren (z : Z) (r r' : list ascii) : str_Z z ++ r <> "("%char :: r'.
Proof.
  destruct (str_Z_head z) as [c [rest [E [H | H]]]]; rewrite E; simpl; intros F;
    injection F as -> _; discriminate.
Qed.

(** A solver text followed by anything that does not start with a digit
    determines its tree. *)
Lemma sprint_prefix_inj (t1 t2 : stree) (ra rb : list ascii) :
  list_ascii_of_string (sprint t1) ++ ra = list_ascii_of_string (sprint t2) ++ rb ->
  starts_with_digit ra = false -> starts_with_digit rb = false ->
  t1 = t2 /\ ra = rb.
Proof.
  revert t2 ra rb; induction t1 as [z1 | o1 l1 IHl r1 IHr];
    intros [z2 | o2 l2 r2] ra rb E Sa Sb.
  - rewrite !sprint_leaf_chars in E.
    destruct (str_Z_prefix z1 z2 ra rb Sa Sb E) as [-> ->]; auto.
  - rewrite sprint_leaf_chars, sprint_node_chars in E.
    exfalso; exact (str_Z_not_paren _ _ _ E).
  - rewrite sprint_leaf_chars, sprint_node_chars in E.
    exfalso; exact (str_Z_not_paren _ _ _ (eq_sym E)).
  - rewrite !sprint_node_chars in E; simpl in E; injection E as E.
    repeat (rewrite <- !app_assoc in E; cbn [app] in E).
    destruct (IHl l2 _ _ E eq_refl eq_refl) as [-> E1]; injection E1 as E1.
    destruct (binop_str_prefix _ _ _ _ E1) as [-> E2]; injection E2 as E2.
    destruct (IHr r2 _ _ E2 eq_refl eq_refl) as [-> E3]; injection E3 as ->.
    auto.
Qed.

Lemma sprint_inj (t1 t2 : stree) : sprint t1 = sprint t2 -> t1 = t2.
Proof.
  intros H.
  assert (E : list_ascii_of_string (sprint t1) ++ [] = list_ascii_of_string (sprint t2) ++ [])
    by now rewrite H.
  exact (proj1 (sprint_prefix_inj t1 t2 [] [] E eq_refl eq_refl)).
Qed.

(** ** The search states *)

Lemma remove_obj_spec (l : list elem) (k : nat) (card : elem) (l' : list elem) :
  remove_obj l k card = Ok l' ->
  exists a y b, l = a ++ y :: b /\ l' = a ++ b /\
    (List.length a = k \/ ((List.length a < k)%nat /\ elem_eq y card = true)).
Proof.
  revert k l'; induction l as [|y r IH]; intros k l' H; simpl in H; [discriminate|].
  destruct k as [|k].
  - injection H as <-; exists [], y, r; auto.
  - destruct (elem_eq y card) eqn:Ey.
    + injection H as <-; exists [], y, r; split; [reflexivity | split; [reflexivity|]].
      right; split; [simpl; lia | exact Ey].
    + destruct (remove_obj r k card) as [r'|e] eqn:R; [|discriminate].
      injection H as <-.
      destruct (IH k r' R) as [a [y' [b [-> [-> Hk]]]]].
      exists (y :: a), y', b; split; [reflexivity | split; [reflexivity|]].
      simpl; destruct Hk as [Hk | [Hk He]]; [left; lia | right; split; [lia | exact He]].
Qed.

(** The object at a later index moves one place down. *)
Lemma remove_obj_nth (l : list elem) (k j : nat) (card : elem) (l' : list elem) :
  remove_obj l k card = Ok l' -> (k < j)%nat -> nth_error l' (j - 1) = nth_error l j.
Proof.
  intros H Hj; destruct (remove_obj_spec l k card l' H) as [a [y [b [-> [-> Hk]]]]].
  assert (Ha : (List.length a <= j - 1)%nat) by lia.
  rewrite !nth_error_app2 by lia.
  replace (j - List.length a)%nat with (S (j - 1 - List.length a)) by lia.
  reflexivity.
Qed.

Lemma elem_tree_text (x y : elem) (tx ty : stree) :
  elem_tree x tx -> elem_tree y ty -> snd x = snd y -> tx = ty.
Proof. intros [Hx _] [Hy _] E; apply sprint_inj; congruence. Qed.

Lemma Forall2_nth_tree (l : list elem) (ts : list stree) (k : nat) (x : elem) :
  Forall2 elem_tree l ts -> nth_error l k = Some x -> exists t, elem_tree x t.
Proof.
  intros H; revert k; induction H as [|y t l ts Hy H IH]; intros k E;
    destruct k; simpl in E; try discriminate; eauto.
  injection E as ->; eauto.
Qed.

(** Removing the object at index [k], or an earlier element equal to it,
    removes its tree from the state's trees. *)
Lemma remove_obj_trees (l : list elem) (ts : list stree) (k : nat) (card : elem)
    (tc : stree) (l' : list elem) :
  Forall2 elem_tree l ts -> nth_error l k = Some card -> elem_tree card tc ->
  remove_obj l k card = Ok l' ->
  exists ts', Forall2 elem_tree l' ts' /\ Permutation ts (tc :: ts').
Proof.
  intros HF Hk Hc H.
  destruct (remove_obj_spec l k card l' H) as [a [y [b [-> [-> Hy]]]]].
  apply Forall2_app_inv_l in HF as [ta [tyb [Ha [Hyb ->]]]].
  inversion Hyb as [|y' ty b' tb Hyt Hb]; subst.
  assert (Ey : snd y = snd card).
  { destruct Hy as [Hy | [_ Hy]].
    - subst k; rewrite nth_error_app2, Nat.sub_diag in Hk by lia.
      simpl in Hk; injection Hk as ->; reflexivity.
    - unfold elem_eq in Hy; apply andb_true_iff in Hy as [_ Hy].
      apply String.eqb_eq in Hy; exact Hy. }
  rewrite (elem_tree_text y card ty tc Hyt Hc Ey).
  exists (ta ++ tb); split; [apply Forall2_app; assumption|].
  symmetry; apply Permutation_middle.
Qed.

Lemma truthy_nonzero (v : pyval) : py_truthy v = true -> negb (is_zero_num v) = true.
Proof. destruct v; simpl; auto. Qed.

Ltac new_elem o l r :=
  exists (SNode o l r); split; [|try reflexivity; try apply Permutation_app_comm];
  split; [simpl; congruence|]; split;
  [simpl; repeat match goal with H : seval _ = Ok _ |- _ => rewrite H end; cbn [bind binop_fn];
   assumption
  |simpl; repeat match goal with H : no_zero_div _ = true |- _ => rewrite H end;
   repeat match goal with H : seval _ = Ok _ |- _ => rewrite H end;
   try (apply truthy_nonzero; assumption); reflexivity].

(** Every combination [possible_vals] forms has a tree over the two operands'
    trees; a division is formed only by a non-zero divisor. *)
Lemma possible_vals_trees (c1 c2 : elem) (t1 t2 : stree) (pv : list elem) :
  elem_tree c1 t1 -> elem_tree c2 t2 -> possible_vals c1 c2 = Ok pv ->
  Forall (fun p => exists t, elem_tree p t /\ Permutation (sleaves t) (sleaves t1 ++ sleaves t2)) pv.
Proof.
  destruct c1 as [x sx], c2 as [y sy].
  intros [Tx [Vx Zx]] [Ty [Vy Zy]] H; simpl in Tx, Vx, Ty, Vy.
  unfold possible_vals in H.
  destruct (py_add x y) as [v1|] eqn:E1; [|discriminate]; cbn [bind] in H.
  destruct (py_sub x y) as [v2|] eqn:E2; [|discriminate]; cbn [bind] in H.
  destruct (py_sub y x) as [v3|] eqn:E3; [|discriminate]; cbn [bind] in H.
  destruct (py_mul x y) as [v4|] eqn:E4; [|discriminate]; cbn [bind] in H.
  destruct (py_truthy y) eqn:Ry;
    [destruct (py_truediv x y) as [w1|] eqn:D1; [|discriminate]|]; cbn [bind] in H;
  (destruct (py_truthy x) eqn:Rx;
    [destruct (py_truediv y x) as [w2|] eqn:D2; [|discriminate]|]; cbn [bind] in H);
  injection H as <-; simpl app;
  repeat constructor.
  all: first [ new_elem BAdd t1 t2 | new_elem BSub t1 t2 | new_elem BSub t2 t1
             | new_elem BMul t1 t2 | new_elem BDiv t1 t2 | new_elem BDiv t2 t1 ].
Qed.

(** One iteration of the pair loop keeps the invariant in every new state. *)
Lemma gather_pair_inv (cards : list Z) (nums : list elem) (i j : nat) (g : list (list elem)) :
  state_inv cards nums -> (i < j)%nat -> gather_pair nums i j = Ok g ->
  Forall (state_inv cards) g.
Proof.
  intros [ts [HF HP]] Hij H; unfold gather_pair, nth_res in H.
  destruct (nth_error nums i) as [card1|] eqn:N1; [|discriminate]; cbn [bind] in H.
  destruct (nth_error nums j) as [card2|] eqn:N2; [|discriminate]; cbn [bind] in H.
  destruct (remove_obj nums i card1) as [r1|] eqn:R1; [|discriminate]; cbn [bind] in H.
  destruct (remove_obj r1 (j - 1) card2) as [r2|] eqn:R2; [|discriminate]; cbn [bind] in H.
  destruct (possible_vals card1 card2) as [pv|] eqn:PV; [|discriminate]; cbn [bind] in H.
  injection H as <-.
  destruct (Forall2_nth_tree _ _ _ _ HF N1) as [t1 T1].
  destruct (Forall2_nth_tree _ _ _ _ HF N2) as [t2 T2].
  destruct (remove_obj_trees _ _ _ _ _ _ HF N1 T1 R1) as [ts1 [HF1 P1]].
  assert (N2' : nth_error r1 (j - 1) = Some card2) by (rewrite (remove_obj_nth _ _ _ _ _ R1 Hij); exact N2).
  destruct (remove_obj_trees _ _ _ _ _ _ HF1 N2' T2 R2) as [ts2 [HF2 P2]].
  apply Forall_map.
  eapply Forall_impl; [|exact (possible_vals_trees _ _ _ _ _ T1 T2 PV)].
  intros p [tp [Tp Pp]].
  exists (tp :: ts2); split; [constructor; assumption|].
  rewrite <- HP, P1, P2; simpl flat_map.
  rewrite Pp, <- app_assoc; reflexivity.
Qed.

Lemma pairs_lt (n : nat) : Forall (fun ij => (fst ij < snd ij)%nat) (pairs n).
Proof.
  apply Forall_forall; intros [i j] Hin; unfold pairs in Hin.
  apply in_flat_map in Hin as [i' [_ Hin]].
  apply in_map_iff in Hin as [j' [E Hj]]; injection E as -> ->.
  apply in_seq in Hj; simpl; lia.
Qed.

Lemma gather_pairs_inv (cards : list Z) (nums : list elem) (ps : list (nat * nat))
    (g : list (list elem)) :
  state_inv cards nums -> Forall (fun ij => (fst ij < snd ij)%nat) ps ->
  gather_pairs nums ps = Ok g -> Forall (state_inv cards) g.
Proof.
  intros Hs Hps; revert g; induction Hps as [|[i j] ps Hij Hps IH]; intros g H; simpl in H.
  - injection H as <-; constructor.
  - destruct (gather_pair nums i j) as [a|] eqn:A; [|discriminate]; cbn [bind] in H.
    destruct (gather_pairs nums ps) as [b|] eqn:B; [|discriminate]; cbn [bind] in H.
    injection H as <-; apply Forall_app; split;
      [exact (gather_pair_inv _ _ _ _ _ Hs Hij A) | exact (IH b eq_refl)].
Qed.

(** Every state that [gather] produces from a state over [cards] is again a
    state over [cards]. *)
Lemma gather_inv (cards : list Z) (nums : list elem) (g : list (list elem)) :
  state_inv cards nums -> gather nums = Ok g -> Forall (state_inv cards) g.
Proof. intros Hs H; exact (gather_pairs_inv _ _ _ _ Hs (pairs_lt _) H). Qed.

Lemma solve_loop_inv (cards : list Z) (fuel : nat) (stack : list (list elem)) (s : string) :
  Forall (state_inv cards) stack -> solve_loop fuel stack = Some (Ok (Some s)) ->
  exists x, state_inv cards [x] /\ snd x = s /\ near_24 (fst x) = Ok true.
Proof.
  revert stack; induction fuel as [|f IH]; intros stack Hs H; simpl in H; [discriminate|].
  destruct stack as [|top rest]; [discriminate|].
  inversion Hs as [|? ? Htop Hrest]; subst.
  destruct (Nat.eqb (List.length top) 1) eqn:L.
  - destruct top as [|x tl]; [exact (IH rest Hrest H)|].
    destruct tl; [|simpl in L; discriminate].
    destruct (near_24 (fst x)) as [[]|e] eqn:N.
    + injection H as <-; eauto.
    + exact (IH rest Hrest H).
    + discriminate.
  - destruct (gather top) as [g|e] eqn:G; [|discriminate].
    apply (IH (rev g ++ rest)); [|exact H].
    apply Forall_app; split; [apply Forall_rev, (gather_inv _ _ _ Htop G) | exact Hrest].
Qed.

(** The cards' elements: each card with its text, once every card prints. *)
Lemma card_elems_ok (cards : list Z) (ns : list elem) :
  card_elems cards = Ok ns ->
  ns = map (fun i => (VInt i, string_of_list_ascii (str_Z i))) cards /\
  forallb fits cards = true.
Proof.
  revert ns; induction cards as [|z cards IH]; intros ns H; simpl in H.
  - injection H as <-; split; reflexivity.
  - unfold py_str_int in H.
    destruct (max_str_digits <? List.length (digits_N (Z.abs_N z)))%nat eqn:L;
      [discriminate|]; cbn [bind] in H.
    destruct (card_elems cards) as [r|e] eqn:C; [|discriminate]; cbn [bind] in H.
    injection H as <-; destruct (IH r eq_refl) as [-> F]; split; [reflexivity|].
    simpl; rewrite F, andb_true_r; unfold fits.
    apply Nat.leb_le, Nat.ltb_ge, L.
Qed.

Lemma initial_state_inv (cards : list Z) :
  state_inv cards (map (fun i => (VInt i, string_of_list_ascii (str_Z i))) cards).
Proof.
  exists (map SLeaf cards); split.
  - induction cards as [|z cards IH]; simpl; constructor; [|exact IH].
    repeat split.
  - induction cards as [|z cards IH]; simpl; [reflexivity | now rewrite IH].
Qed.

(** A text returned by [solve24] is the text of a tree over exactly the
    cards, with no division by zero, whose value is within the solver's
    tolerance of 24; every card then has at most 4300 digits. *)
Lemma solve24_tree (cards : list Z) (s : string) :
  solve24 cards = Solved s ->
  exists t v, s = sprint t /\ seval t = Ok v /\ no_zero_div t = true /\
              Permutation (sleaves t) cards /\ near_24 v = Ok true /\
              forallb fits cards = true.
Proof.
  unfold solve24; intros H.
  destruct (card_elems cards) as [ns|e] eqn:C; [|discriminate].
  destruct (card_elems_ok _ _ C) as [-> Hf].
  destruct (gather _) as [st|e] eqn:G; [|discriminate].
  destruct (solve_loop _ _) as [[[s'|]|e]|] eqn:L; try discriminate.
  injection H as <-.
  assert (Hs : Forall (state_inv cards) (rev st))
    by exact (Forall_rev (gather_inv _ _ _ (initial_state_inv cards) G)).
  destruct (solve_loop_inv _ _ _ _ Hs L) as [x [[ts [HF HP]] [Hx Hn]]].
  inversion HF as [|? t ? ? [Tt [Vt Zt]] HF']; subst.
  inversion HF'; subst.
  exists t, (fst x); repeat split; auto.
  simpl in HP; rewrite app_nil_r in HP; exact HP.
Qed.

(** ** Parentheses in the solver's texts *)

Lemma digit_not_paren (c : ascii) :
  ascii_digit c = true -> Ascii.eqb c "(" = false /\ Ascii.eqb c ")" = false.
Proof.
  intros H; split;
    [destruct (Ascii.eqb_spec c "(") | destruct (Ascii.eqb_spec c ")")];
    subst; try discriminate; reflexivity.
Qed.

Lemma parens_ok_skip (d : nat) (l r : list ascii) :
  Forall (fun c => Ascii.eqb c "(" = false /\ Ascii.eqb c ")" = false) l ->
  parens_ok d (l ++ r) = parens_ok d r.
Proof.
  intros H; induction H as [|c l [H1 H2] _ IH]; [reflexivity|].
  simpl; rewrite H1, H2; exact IH.
Qed.

Lemma str_Z_no_paren (z : Z) :
  Forall (fun c => Ascii.eqb c "(" = false /\ Ascii.eqb c ")" = false) (str_Z z).
Proof.
  assert (D : forall n, Forall (fun c => Ascii.eqb c "(" = false /\ Ascii.eqb c ")" = false)
                               (digits_N n)).
  { intros n; eapply Forall_impl; [|apply digits_N_digits]; exact digit_not_paren. }
  destruct z; simpl; [apply D | apply D | constructor; [split; reflexivity | apply D]].
Qed.

Lemma parens_ok_sprint (t : stree) (d : nat) (r : list ascii) :
  parens_ok d (list_ascii_of_string (sprint t) ++ r) = parens_ok d r.
Proof.
  revert d r; induction t as [z | o l IHl rt IHr]; intros d r.
  - rewrite sprint_leaf_chars; apply parens_ok_skip, str_Z_no_paren.
  - rewrite sprint_node_chars; simpl.
    repeat (rewrite <- !app_assoc; cbn [app]).
    rewrite IHl; simpl.
    destruct o; simpl; rewrite IHr; reflexivity.
Qed.

Lemma sprint_balanced (t : stree) : balanced (sprint t) = true.
Proof.
  unfold balanced; rewrite <- (app_nil_r (list_ascii_of_string (sprint t))).
  now rewrite parens_ok_sprint.
Qed.

(** ** Solver texts as well-formed expressions *)

Lemma gfactor_of_stree_print (t : stree) :
  Forall (fun z => 0 <= z) (sleaves t) ->
  print_f [" "%char] (gfactor_of_stree t) = list_ascii_of_string (sprint t).
Proof.
  induction t as [z | o l IHl r IHr]; intros H.
  - rewrite sprint_leaf_chars; simpl in H; inversion H as [|? ? Hz _]; subst.
    destruct z as [|p|p]; simpl; [reflexivity | reflexivity | lia].
  - simpl in H; apply Forall_app in H as [Hl Hr].
    rewrite sprint_node_chars.
    destruct o; simpl; rewrite (IHl Hl), (IHr Hr);
      repeat (rewrite <- !app_assoc; cbn [app]); reflexivity.
Qed.

Lemma gfactor_of_stree_eval (t : stree) :
  Forall (fun z => 0 <= z) (sleaves t) -> pyeval_f (gfactor_of_stree t) = seval t.
Proof.
  induction t as [z | o l IHl r IHr]; intros H.
  - simpl in H; inversion H as [|? ? Hz _]; subst; simpl; now rewrite Z2N.id.
  - simpl in H; apply Forall_app in H as [Hl Hr].
    destruct o; simpl; rewrite (IHl Hl), (IHr Hr); reflexivity.
Qed.

Lemma gfactor_of_stree_leaves (t : stree) :
  Forall (fun z => 0 <= z) (sleaves t) -> leaves_f (gfactor_of_stree t) = sleaves t.
Proof.
  induction t as [z | o l IHl r IHr]; intros H.
  - simpl in H; inversion H as [|? ? Hz _]; subst; simpl; now rewrite Z2N.id.
  - simpl in H; apply Forall_app in H as [Hl Hr].
    destruct o; simpl; rewrite (IHl Hl), (IHr Hr); reflexivity.
Qed.

(** ** The two tolerance windows *)

Lemma py_ge_trans (a b c : pyval) :
  py_ge a b = Ok true -> py_ge b c = Ok true -> py_ge a c = Ok true.
Proof.
  unfold py_ge.
  destruct (num_xval a) as [x|], (num_xval b) as [y|], (num_xval c) as [z|];
    try discriminate.
  intros H1 H2; injection H1 as H1; injection H2 as H2; f_equal.
  destruct x as [p|s|], y as [q|t|], z as [r|u|];
    try destruct s; try destruct t; try destruct u; simpl in *;
    try discriminate; try reflexivity.
  apply qge_le in H1, H2; apply qge_le; eapply Qle_trans; eassumption.
Qed.

(** The solver's window [[23.9999, 24.0001]] lies inside the checker's. *)
Lemma near_24_in_window (v : pyval) : near_24 v = Ok true -> in_window v = true.
Proof.
  unfold near_24, py_le, in_window; intros H.
  destruct (py_ge v lit_23_9999) as [[]|e] eqn:Lo; cbn [bind] in H; try discriminate.
  assert (U : py_ge lit_24_1 lit_24_0001 = Ok true) by (vm_compute; reflexivity).
  assert (D : py_ge lit_23_9999 lit_23_9 = Ok true) by (vm_compute; reflexivity).
  rewrite (py_ge_trans _ _ _ U H), (py_ge_trans _ _ _ Lo D); reflexivity.
Qed.

(** A text returned by [solve24] on non-negative cards passes the checker. *)
Lemma solve24_checks (cards : list Z) (s : string) :
  Forall (fun z => 0 <= z) cards -> solve24 cards = Solved s ->
  check_expression cards s = (Returned true "Correct!", []).
Proof.
  intros Hc H.
  destruct (solve24_tree cards s H) as [t [v [-> [Hv [_ [Hp [Hn Hf]]]]]]].
  assert (Hl : Forall (fun z => 0 <= z) (sleaves t))
    by (apply Forall_forall; intros z Hz; eapply Forall_forall; [exact Hc|];
        exact (Permutation_in _ Hp Hz)).
  set (e := ETerm (TFac (gfactor_of_stree t))).
  assert (Es : sprint t = string_of_list_ascii (print_e [" "%char] e)).
  { unfold e; simpl print_e; rewrite (gfactor_of_stree_print t Hl).
    symmetry; apply string_of_list_ascii_of_string. }
  assert (Hsep : Forall (fun c => sep_char c = true) [" "%char]) by (repeat constructor).
  assert (Hfe : forallb fits (leaves_e e) = true).
  { unfold e; simpl; rewrite (gfactor_of_stree_leaves t Hl).
    apply forallb_forall; intros z Hz.
    exact (proj1 (forallb_forall _ _) Hf z (Permutation_in _ Hp Hz)). }
  assert (Hpe : Permutation (leaves_e e) cards)
    by (unfold e; simpl; rewrite (gfactor_of_stree_leaves t Hl); exact Hp).
  pose proof (check_expression_grammar _ e cards Hsep Hfe Hpe) as G.
  unfold e in G; simpl pyeval_e in G; rewrite (gfactor_of_stree_eval t Hl), Hv in G.
  rewrite Es; unfold e; rewrite G, (window_print v (near_24_in_window v Hn)),
    (near_24_in_window v Hn); reflexivity.
Qed.

(** ** Converting a non-zero int to float never gives zero *)

Lemma digits2_pos_log2 (m : positive) : Zpos (digits2_pos m) = Z.log2 (Zpos m) + 1.
Proof.
  induction m as [m IH|m IH|]; simpl digits2_pos; try rewrite Pos2Z.inj_succ.
  - rewrite IH, Pos2Z.inj_xI, Z.log2_succ_double by lia; lia.
  - rewrite IH, Pos2Z.inj_xO, Z.log2_double by lia; lia.
  - reflexivity.
Qed.

Lemma shr_1_m (mrs : shr_record) : 0 <= shr_m mrs -> shr_m (shr_1 mrs) = Z.div2 (shr_m mrs).
Proof. destruct mrs as [[|[p|p|]|p] r s]; simpl; intro H; try reflexivity; lia. Qed.

Lemma iter_pos_shr_1 (p : positive) : forall mrs, 0 <= shr_m mrs ->
  shr_m (iter_pos shr_1 p mrs) = Z.shiftr (shr_m mrs) (Zpos p).
Proof.
  induction p as [p IH|p IH|]; intros mrs H; simpl iter_pos.
  - assert (H1 : 0 <= shr_m (shr_1 mrs))
      by (rewrite shr_1_m by exact H; rewrite Z.div2_div; apply Z.div_pos; lia).
    assert (H2 : 0 <= shr_m (iter_pos shr_1 p (shr_1 mrs)))
      by (rewrite IH by exact H1; apply Z.shiftr_nonneg; exact H1).
    rewrite IH, IH, shr_1_m, Z.div2_spec, !Z.shiftr_shiftr by lia.
    f_equal; lia.
  - assert (H2 : 0 <= shr_m (iter_pos shr_1 p mrs))
      by (rewrite IH by exact H; apply Z.shiftr_nonneg; exact H).
    rewrite IH, IH, !Z.shiftr_shiftr by lia. f_equal; lia.
  - rewrite shr_1_m, Z.div2_spec by exact H; reflexivity.
Qed.

(** One rounding shift of binary64 keeps a positive mantissa positive, as long
    as the exponent stays out of the subnormal range. *)
Lemma shr_fexp_stage (m e : Z) (l : location) :
  0 < m -> -1074 <= Z.log2 m + 1 + e - 53 ->
  let '(mrs, e') := shr_fexp 53 1024 m e l in
  0 < shr_m mrs /\ Z.log2 m + e <= Z.log2 (shr_m mrs) + e'.
Proof.
  intros Hm He. unfold shr_fexp, shr.
  destruct m as [|p|p]; try lia.
  assert (Hm0 : shr_m (shr_record_of_loc (Zpos p) l) = Zpos p)
    by (destruct l as [|[]]; reflexivity).
  unfold Zdigits2; rewrite digits2_pos_log2.
  unfold fexp, emin.
  destruct (Z.max (Z.log2 (Zpos p) + 1 + e - 53) (3 - 1024 - 53) - e) as [|k|k] eqn:Ek.
  - rewrite Hm0; lia.
  - rewrite iter_pos_shr_1 by (rewrite Hm0; lia). rewrite Hm0.
    assert (Hk : Zpos k <= Z.log2 (Zpos p)) by lia.
    split.
    + destruct (Z.eq_dec (Z.shiftr (Zpos p) (Zpos k)) 0) as [Z0|NZ].
      * apply Z.shiftr_eq_0_iff in Z0; lia.
      * pose proof (Z.shiftr_nonneg (Zpos p) (Zpos k)); lia.
    + rewrite Z.log2_shiftr by lia. lia.
  - rewrite Hm0; lia.
Qed.

Lemma round_nearest_even_ge (m : Z) (l : location) : m <= round_nearest_even m l.
Proof. destruct l as [|[]]; simpl; try lia. destruct (Z.even m); lia. Qed.

Lemma binary_round_aux_nonzero (s : bool) (m e : Z) (l : location) :
  0 < m -> -1074 <= Z.log2 m + 1 + e - 53 ->
  match binary_round_aux 53 1024 s m e l with S754_zero _ => False | _ => True end.
Proof.
  intros Hm He. unfold binary_round_aux.
  pose proof (shr_fexp_stage m e l Hm He) as S1.
  destruct (shr_fexp 53 1024 m e l) as [mrs' e'] eqn:E1.
  destruct S1 as [P1 L1].
  set (m2 := round_nearest_even (shr_m mrs') (loc_of_shr_record mrs')).
  assert (G : shr_m mrs' <= m2) by apply round_nearest_even_ge.
  assert (L2 : Z.log2 (shr_m mrs') <= Z.log2 m2) by (apply Z.log2_le_mono; exact G).
  pose proof (shr_fexp_stage m2 e' loc_Exact ltac:(lia) ltac:(lia)) as S2.
  destruct (shr_fexp 53 1024 m2 e' loc_Exact) as [mrs'' e''].
  destruct S2 as [P2 _].
  destruct (shr_m mrs'') as [|p|p]; try lia.
  destruct (e'' <=? 1024 - 53); exact I.
Qed.

Lemma float_of_int_nonzero (n : Z) (f : float) :
  n <> 0 -> float_of_int n = Ok f -> is_zero f = false.
Proof.
  intros Hn; unfold float_of_int.
  assert (NZ : match binary_normalize 53 1024 n 0 false with
               | S754_zero _ => False | _ => True end).
  { destruct n as [|p|p]; [lia| |]; unfold binary_normalize, binary_round;
      unfold shl_align, fexp, emin; rewrite digits2_pos_log2;
      pose proof (Z.log2_nonneg (Zpos p));
      destruct (Z.max (Z.log2 (Zpos p) + 1 + 0 - 53) (3 - 1024 - 53) - 0) as [|k|k] eqn:Ek;
      apply binary_round_aux_nonzero; try lia;
      pose proof (Z.log2_nonneg (Zpos (Pos.iter xO p k))); lia. }
  destruct (binary_normalize 53 1024 n 0 false); intros H; try discriminate;
    injection H as <-; [contradiction | reflexivity ..].
Qed.

(** ** Errors of the solver's arithmetic on numbers *)

Lemma to_float_err (v : pyval) (e : exn) : is_num v -> to_float v = Err e -> e = OverflowError.
Proof.
  destruct v as [z|f|s]; simpl; intros Hv H; try contradiction; try discriminate.
  unfold float_of_int in H; destruct (binary_normalize 53 1024 z 0 false);
    congruence.
Qed.

Lemma float_of_int_err (z : Z) (e : exn) : float_of_int z = Err e -> e = OverflowError.
Proof.
  unfold float_of_int; destruct (binary_normalize 53 1024 z 0 false); congruence.
Qed.

Ltac float_ops_err :=
  repeat match goal with
  | H : bind ?m _ = Err _ |- _ =>
      let E := fresh in destruct m eqn:E; cbn [bind] in H;
      [|injection H as <-;
        first [exact (float_of_int_err _ _ E) | eapply to_float_err; [|exact E]; assumption]]
  end.

Lemma py_arith_err (o : binop) (x y : pyval) (e : exn) :
  is_num x -> is_num y -> (o = BDiv -> py_truthy y = true) ->
  binop_fn o x y = Err e -> e = OverflowError.
Proof.
  intros Hx Hy Ht.
  destruct x as [a|fa|sa]; try contradiction; destruct y as [b|fb|sb]; try contradiction;
    destruct o; simpl; intros H; try discriminate; float_ops_err; try discriminate;
    specialize (Ht eq_refl); simpl in Ht.
  - destruct (int_truediv a b) as [f|e'] eqn:D; cbn [bind] in H; [discriminate|].
    injection H as <-; unfold int_truediv in D.
    destruct (b =? 0); [simpl in Ht; discriminate|].
    destruct (Z.abs a); try discriminate;
      destruct (SFdiv_core_binary 53 1024 _ 0 (Z.abs b) 0) as [[mz ez] lz];
      destruct (binary_round_aux 53 1024 _ mz ez lz); congruence.
  - destruct (is_zero fb); discriminate.
  - match goal with E : float_of_int b = Ok ?f |- _ =>
      rewrite (float_of_int_nonzero b f ltac:(lia) E) in H; discriminate end.
  - destruct (is_zero fb); discriminate.
Qed.

(** On two numbers, [possible_vals] never raises [ZeroDivisionError]. *)
Lemma possible_vals_no_zdiv (x y : pyval) (tx ty : string) :
  is_num x -> is_num y -> possible_vals (x, tx) (y, ty) <> Err ZeroDivisionError.
Proof.
  intros Hx Hy; unfold possible_vals.
  assert (A : forall o a b e, is_num a -> is_num b -> (o = BDiv -> py_truthy b = true) ->
                binop_fn o a b = Err e -> e <> ZeroDivisionError)
    by (intros o a b e Ha Hb Ht H; rewrite (py_arith_err o a b e Ha Hb Ht H); discriminate).
  destruct (py_add x y) as [v1|e] eqn:E1; cbn [bind];
    [|intros [= He]; exact (A BAdd x y e Hx Hy ltac:(discriminate) E1 He)].
  destruct (py_sub x y) as [v2|e] eqn:E2; cbn [bind];
    [|intros [= He]; exact (A BSub x y e Hx Hy ltac:(discriminate) E2 He)].
  destruct (py_sub y x) as [v3|e] eqn:E3; cbn [bind];
    [|intros [= He]; exact (A BSub y x e Hy Hx ltac:(discriminate) E3 He)].
  destruct (py_mul x y) as [v4|e] eqn:E4; cbn [bind];
    [|intros [= He]; exact (A BMul x y e Hx Hy ltac:(discriminate) E4 He)].
  destruct (py_truthy y) eqn:Ty; cbn [bind].
  1: destruct (py_truediv x y) as [w1|e] eqn:D1; cbn [bind];
       [|intros [= He]; exact (A BDiv x y e Hx Hy (fun _ => Ty) D1 He)].
  all: destruct (py_truthy x) eqn:Tx; cbn [bind].
  all: try (destruct (py_truediv y x) as [w2|e] eqn:D2; cbn [bind];
       [|intros [= He]; exact (A BDiv y x e Hy Hx (fun _ => Tx) D2 He)]).
  all: discriminate.
Qed.

(** [possible_vals] forms four combinations, and one more division for each
    operand whose value is truthy, i.e. non-zero. *)
Lemma possible_vals_length (x y : pyval) (tx ty : string) (pv : list elem) :
  possible_vals (x, tx) (y, ty) = Ok pv ->
  List.length pv = (4 + (if py_truthy y then 1 else 0) + (if py_truthy x then 1 else 0))%nat.
Proof.
  unfold possible_vals.
  destruct (py_add x y); cbn [bind]; [|discriminate].
  destruct (py_sub x y); cbn [bind]; [|discriminate].
  destruct (py_sub y x); cbn [bind]; [|discriminate].
  destruct (py_mul x y); cbn [bind]; [|discriminate].
  destruct (py_truthy y); cbn [bind];
    [destruct (py_truediv x y); cbn [bind]; [|discriminate]|];
    destruct (py_truthy x); cbn [bind];
    try (destruct (py_truediv y x); cbn [bind]; [|discriminate]);
    intros [= <-]; reflexivity.
Qed.

Lemma num_truthy (v : pyval) : is_num v -> py_truthy v = negb (is_zero_num v).
Proof. destruct v; simpl; tauto. Qed.

(** The text of each combination is [(a op b)] for the two operands' texts. *)
Lemma possible_vals_texts (x y : pyval) (tx ty : string) (pv : list elem) (p : elem) :
  possible_vals (x, tx) (y, ty) = Ok pv -> In p pv ->
  exists op, In op ["+"; "-"; "*"; "/"]%string /\
             (snd p = fmt tx op ty \/ snd p = fmt ty op tx).
Proof.
  unfold possible_vals.
  destruct (py_add x y); cbn [bind]; [|discriminate].
  destruct (py_sub x y); cbn [bind]; [|discriminate].
  destruct (py_sub y x); cbn [bind]; [|discriminate].
  destruct (py_mul x y); cbn [bind]; [|discriminate].
  destruct (py_truthy y); cbn [bind];
    [destruct (py_truediv x y); cbn [bind]; [|discriminate]|];
    destruct (py_truthy x); cbn [bind];
    try (destruct (py_truediv y x); cbn [bind]; [|discriminate]);
    intros [= <-]; simpl; intros Hp;
    repeat destruct Hp as [<- | Hp]; try contradiction; simpl;
    solve [ exists "+"%string; simpl; tauto | exists "-"%string; simpl; tauto
          | exists "*"%string; simpl; tauto | exists "/"%string; simpl; tauto ].
Qed.

(** ** The shape of a [gather] step *)

(** In a state over the cards, [remaining.remove(card)] removes [card] itself:
    an element equal to it has the same text, hence the same tree and value. *)
Lemma remove_obj_perm (l : list elem) (ts : list stree) (k : nat) (card : elem)
    (l' : list elem) :
  Forall2 elem_tree l ts -> nth_error l k = Some card -> remove_obj l k card = Ok l' ->
  Permutation l (card :: l').
Proof.
  intros HF Hk H.
  destruct (remove_obj_spec l k card l' H) as [a [y [b [-> [-> Hy]]]]].
  assert (Ny : nth_error (a ++ y :: b) (List.length a) = Some y)
    by (rewrite nth_error_app2, Nat.sub_diag by lia; reflexivity).
  destruct (Forall2_nth_tree _ _ _ _ HF Ny) as [ty Ty].
  destruct (Forall2_nth_tree _ _ _ _ HF Hk) as [tc Tc].
  assert (Ey : snd y = snd card).
  { destruct Hy as [Hy | [_ Hy]].
    - subst k; rewrite Ny in Hk; injection Hk as ->; reflexivity.
    - unfold elem_eq in Hy; apply andb_true_iff in Hy as [_ Hy].
      apply String.eqb_eq in Hy; exact Hy. }
  pose proof (elem_tree_text y card ty tc Ty Tc Ey) as <-.
  destruct Ty as [_ [Vy _]], Tc as [_ [Vc _]].
  assert (Fy : fst y = fst card) by congruence.
  destruct y, card; simpl in Ey, Fy; subst.
  symmetry; apply Permutation_middle.
Qed.

(** Each state formed by one pair iteration is a new element [(a op b)] built
    from the texts of two elements of the old state, in front of the other
    elements of the old state. *)
Lemma gather_pair_step (cards : list Z) (nums : list elem) (i j : nat)
    (g : list (list elem)) (st : list elem) :
  state_inv cards nums -> (i < j)%nat -> gather_pair nums i j = Ok g -> In st g ->
  exists c1 c2 p r, st = p :: r /\ Permutation nums (c1 :: c2 :: r) /\
    exists op, In op ["+"; "-"; "*"; "/"]%string /\
               (snd p = fmt (snd c1) op (snd c2) \/ snd p = fmt (snd c2) op (snd c1)).
Proof.
  intros [ts [HF HP]] Hij H Hst; unfold gather_pair, nth_res in H.
  destruct (nth_error nums i) as [card1|] eqn:N1; [|discriminate]; cbn [bind] in H.
  destruct (nth_error nums j) as [card2|] eqn:N2; [|discriminate]; cbn [bind] in H.
  destruct (remove_obj nums i card1) as [r1|] eqn:R1; [|discriminate]; cbn [bind] in H.
  destruct (remove_obj r1 (j - 1) card2) as [r2|] eqn:R2; [|discriminate]; cbn [bind] in H.
  destruct (possible_vals card1 card2) as [pv|] eqn:PV; [|discriminate]; cbn [bind] in H.
  injection H as <-.
  apply in_map_iff in Hst as [p [<- Hp]].
  destruct (Forall2_nth_tree _ _ _ _ HF N1) as [t1 T1].
  destruct (remove_obj_trees _ _ _ _ _ _ HF N1 T1 R1) as [ts1 [HF1 _]].
  assert (N2' : nth_error r1 (j - 1) = Some card2)
    by (rewrite (remove_obj_nth _ _ _ _ _ R1 Hij); exact N2).
  exists card1, card2, p, r2; split; [reflexivity|]; split.
  - rewrite (remove_obj_perm _ _ _ _ _ HF N1 R1).
    apply perm_skip, (remove_obj_perm _ _ _ _ _ HF1 N2' R2).
  - destruct card1 as [x tx], card2 as [y ty].
    exact (possible_vals_texts x y tx ty pv p PV Hp).
Qed.

Lemma gather_step (cards : list Z) (nums : list elem) (g : list (list elem)) (st : list elem) :
  state_inv cards nums -> gather nums = Ok g -> In st g ->
  exists c1 c2 p r, st = p :: r /\ Permutation nums (c1 :: c2 :: r) /\
    exists op, In op ["+"; "-"; "*"; "/"]%string /\
               (snd p = fmt (snd c1) op (snd c2) \/ snd p = fmt (snd c2) op (snd c1)).
Proof.
  intros Hs; unfold gather.
  generalize (pairs_lt (List.length nums)).
  generalize (pairs (List.length nums)) as ps.
  intros ps Hps; revert g; induction Hps as [|[i j] ps Hij Hps IH]; intros g H Hin;
    simpl in H.
  - injection H as <-; destruct Hin.
  - destruct (gather_pair nums i j) as [a|] eqn:A; [|discriminate]; cbn [bind] in H.
    destruct (gather_pairs nums ps) as [b|] eqn:B; [|discriminate]; cbn [bind] in H.
    injection H as <-; apply in_app_or in Hin as [Hin | Hin].
    + exact (gather_pair_step _ _ _ _ _ _ Hs Hij A Hin).
    + exact (IH b eq_refl Hin).
Qed.

(** ** Claims about the solver *)

(** C2 (amended): for cards that are all non-negative, a text returned by
    [solve24] passes [check_expression] with [(True, "Correct!")]; in
    particular [solve24 [4; 7; 8; 8]] returns such a text. *)
Theorem C2_roundtrip_nonnegative (cards : list Z) (s : string) :
  forallb (Z.leb 0) cards = true -> solve24 cards = Solved s ->
  check_expression cards s = (Returned true "Correct!", []) /\
  solve24 [4; 7; 8; 8] = Solved "((7 - (8 / 8)) * 4)" /\
  check_expression [4; 7; 8; 8] "((7 - (8 / 8)) * 4)" = (Returned true "Correct!", []).
Proof.
  intros Hc H; split; [|split; vm_compute; reflexivity].
  apply (solve24_checks cards s); [|exact H].
  apply Forall_forall; intros z Hz.
  rewrite forallb_forall in Hc; apply Z.leb_le, Hc, Hz.
Qed.

Lemma C2_roundtrip_nonnegative_witness :
  forallb (Z.leb 0) [4; 7; 8; 8] = true /\
  check_expression [4; 7; 8; 8] "((7 - (8 / 8)) * 4)" = (Returned true "Correct!", []).
Proof.
  split; [reflexivity|].
  apply (C2_roundtrip_nonnegative [4; 7; 8; 8] "((7 - (8 / 8)) * 4)");
    [reflexivity | vm_compute; reflexivity].
Defined.

(** C9: the generator tests each divisor's truth value, which for a number
    is being non-zero; it forms the four other combinations and a division
    only by a truthy divisor, so a zero divisor adds no branch; on two numbers
    it never raises [ZeroDivisionError]; every state it forms from a state
    over the cards is again one, whose elements are texts of trees with no
    division by a zero value; hence the text returned by [solve24] is the
    text of a tree over the cards with no division by a zero value. *)
Theorem C9_zero_divisor_pruned :
  (forall v, is_num v -> py_truthy v = negb (is_zero_num v)) /\
  (forall x tx y ty pv, possible_vals (x, tx) (y, ty) = Ok pv ->
     List.length pv = (4 + (if py_truthy y then 1 else 0) + (if py_truthy x then 1 else 0))%nat) /\
  (forall x tx y ty, is_num x -> is_num y ->
     possible_vals (x, tx) (y, ty) <> Err ZeroDivisionError) /\
  (forall cards st g, state_inv cards st -> gather st = Ok g -> Forall (state_inv cards) g) /\
  (forall cards s, solve24 cards = Solved s ->
     exists t, s = sprint t /\ Permutation (sleaves t) cards /\ no_zero_div t = true).
Proof.
  split; [exact num_truthy|].
  split; [intros x tx y ty pv; exact (possible_vals_length x y tx ty pv)|].
  split; [intros x tx y ty; exact (possible_vals_no_zdiv x y tx ty)|].
  split; [exact gather_inv|].
  intros cards s H.
  destruct (solve24_tree cards s H) as [t [v [Hs [_ [Hz [Hp _]]]]]].
  exists t; auto.
Qed.

Lemma C9_zero_divisor_pruned_witness :
  solve24 [4; 7; 8; 8] = Solved "((7 - (8 / 8)) * 4)" /\
  exists t, "((7 - (8 / 8)) * 4)"%string = sprint t /\
            Permutation (sleaves t) [4; 7; 8; 8] /\ no_zero_div t = true.
Proof.
  split; [vm_compute; reflexivity|].
  destruct C9_zero_divisor_pruned as [_ [_ [_ [_ H]]]].
  apply (H [4; 7; 8; 8]); vm_compute; reflexivity.
Defined.

(** C10: a text returned by [solve24] has balanced parentheses and reads as
    exactly one tree, whose leaves are the cards; every [gather] step keeps
    the invariant (elements are texts of trees whose leaves, together, are
    the cards) and forms each new state as one element [(a op b)] over the
    texts of two elements of the old state, followed by the old state's
    other elements. *)
Theorem C10_balanced_cards_invariant :
  (forall cards s, solve24 cards = Solved s ->
     balanced s = true /\
     exists t, s = sprint t /\ Permutation (sleaves t) cards /\
               (forall t', sprint t' = s -> t' = t)) /\
  (forall cards st g, state_inv cards st -> gather st = Ok g -> Forall (state_inv cards) g) /\
  (forall cards st g st', state_inv cards st -> gather st = Ok g -> In st' g ->
     exists c1 c2 p r, st' = p :: r /\ Permutation st (c1 :: c2 :: r) /\
       exists op, In op ["+"; "-"; "*"; "/"]%string /\
                  (snd p = fmt (snd c1) op (snd c2) \/ snd p = fmt (snd c2) op (snd c1))).
Proof.
  split; [|split; [exact gather_inv | exact gather_step]].
  intros cards s H.
  destruct (solve24_tree cards s H) as [t [v [-> [_ [_ [Hp _]]]]]].
  split; [apply sprint_balanced|].
  exists t; split; [reflexivity|]; split; [exact Hp|].
  intros t' E; exact (sprint_inj t' t E).
Qed.

Lemma C10_balanced_cards_invariant_witness :
  solve24 [4; 7; 8; 8] = Solved "((7 - (8 / 8)) * 4)" /\
  balanced "((7 - (8 / 8)) * 4)" = true.
Proof.
  split; [vm_compute; reflexivity|].
  destruct C10_balanced_cards_invariant as [H _].
  apply (H [4; 7; 8; 8]); vm_compute; reflexivity.
Defined.

(** ** More of the checker *)

Lemma tokenize_filter (st : tok_state) (cs : list Z) :
  tokenize st cs = tokenize st (filter (fun c => negb (ignorable c)) cs).
Proof.
  revert st; induction cs as [|c cs IH]; intros st; [reflexivity|].
  simpl; destruct (ignorable c) eqn:I; simpl.
  - rewrite ignorable_step by exact I; apply IH.
  - destruct (tok_step st c); [apply IH | reflexivity | reflexivity].
Qed.

(** X: [check_expression] reads only the digits (any Unicode decimal digit,
    as [str.isdigit] has it), the four operators and the parentheses of its
    input: two inputs with the same such characters in the same order give
    the same outcome and the same card list, whatever else (spaces, letters,
    dots, ...) they hold; so, for instance, digits separated by a space form
    one number. *)
Theorem check_expression_only_tokens (cards : list Z) (expression expression' : string) :
  filter (fun c => negb (ignorable c)) (Uni.cps expression) =
  filter (fun c => negb (ignorable c)) (Uni.cps expression') ->
  check_expression cards expression = check_expression cards expression'.
Proof.
  intros H; unfold check_expression.
  rewrite (tokenize_filter tok_init (Uni.cps expression)), H, <- tokenize_filter; reflexivity.
Qed.

Lemma check_expression_only_tokens_witness :
  filter (fun c => negb (ignorable c)) (Uni.cps "1 2 + x(3)") =
  filter (fun c => negb (ignorable c)) (Uni.cps "12+(3)") /\
  check_expression [12; 3] "1 2 + x(3)" = check_expression [12; 3] "12+(3)".
Proof.
  split; [vm_compute; reflexivity|].
  apply check_expression_only_tokens; vm_compute; reflexivity.
Defined.

Lemma digit_not_paren_cp (c : Z) :
  is_digit c = true -> (c =? 40) = false /\ (c =? 41) = false.
Proof.
  intros H; split; [destruct (Z.eqb_spec c 40) | destruct (Z.eqb_spec c 41)];
    subst; try reflexivity; vm_compute in H; discriminate.
Qed.

Lemma op_char_not_paren (c : Z) (p : Z) :
  op_prec (str1 c) = Some p -> (c =? 40) = false /\ (c =? 41) = false.
Proof.
  intros H; split; [destruct (Z.eqb_spec c 40) | destruct (Z.eqb_spec c 41)];
    subst; try reflexivity; vm_compute in H; discriminate.
Qed.

Lemma pop_ops_open (p : Z) (o s : list string) :
  count_open (snd (pop_ops p o s)) = count_open s.
Proof.
  revert o; induction s as [|top rest IH]; intros o; [reflexivity|].
  simpl pop_ops; destruct (op_prec top) as [q|] eqn:Q; [|reflexivity].
  destruct (q <=? p); [|reflexivity].
  rewrite IH; unfold count_open; simpl.
  rewrite (is_op_not_paren top) by (unfold is_op; rewrite Q; reflexivity); reflexivity.
Qed.

Lemma pop_to_paren_open (o s : list string) :
  match snd (pop_to_paren o s) with
  | [] => count_open s = O
  | _ :: r => count_open s = S (count_open r)
  end.
Proof.
  revert o; induction s as [|top rest IH]; intros o; [reflexivity|].
  simpl pop_to_paren; unfold count_open; simpl filter.
  destruct (String.eqb_spec top "(") as [->|N]; [reflexivity|].
  apply IH.
Qed.

(** The shunting-yard pass either stops at a [")"] with no [(] open, with
    [(False, "Brackets mismatched")], or reads the whole input; it never raises. *)
Lemma tokenize_brackets (cs : list Z) : forall st : tok_state,
  (was_num st = true -> out st <> []) ->
  match tokenize st cs with
  | TNext _ => unmatched_close_cps (count_open (stk st)) cs = false
  | TReturn ok msg =>
      ok = false /\ msg = "Brackets mismatched"%string /\
      unmatched_close_cps (count_open (stk st)) cs = true
  | TErr _ => False
  end.
Proof.
  induction cs as [|c cs IH]; intros [o s w] Hw; [reflexivity|].
  cbn [tokenize unmatched_close_cps]; unfold tok_step; cbn [out stk was_num] in *.
  destruct (is_digit c) eqn:D.
  - destruct (digit_not_paren_cp c D) as [P1 P2]; rewrite P1, P2.
    destruct w.
    + destruct (exists_last (Hw eq_refl)) as [l [x ->]].
      rewrite getitem_last; cbn [bind]; rewrite setitem_last.
      apply IH; cbn [was_num out]; intros _ E; destruct l; discriminate.
    + apply IH; cbn [was_num out]; intros _ E; destruct o; discriminate.
  - destruct (op_prec (str1 c)) as [p|] eqn:Q.
    + destruct (op_char_not_paren c p Q) as [P1 P2]; rewrite P1, P2.
      pose proof (pop_ops_open p o s) as E.
      destruct (pop_ops p o s) as [o' s'].
      specialize (IH (mk_tok o' (str1 c :: s') false) ltac:(discriminate)).
      assert (C : count_open (str1 c :: s') = count_open s').
      { unfold count_open; cbn [filter].
        rewrite (is_op_not_paren (str1 c)) by (unfold is_op; rewrite Q; reflexivity).
        reflexivity. }
      cbn [stk snd] in IH, E; rewrite C, E in IH; exact IH.
    + destruct (Z.eqb_spec c 40) as [->|N1].
      * specialize (IH (mk_tok o (str1 40 :: s) false) ltac:(discriminate)).
        exact IH.
      * destruct (Z.eqb_spec c 41) as [->|N2].
        -- pose proof (pop_to_paren_open o s) as E.
           destruct (pop_to_paren o s) as [o' [|x s']]; cbn [snd] in E; rewrite E.
           ++ repeat split.
           ++ apply (IH (mk_tok o' s' false)); discriminate.
        -- apply IH; exact Hw.
Qed.







Lemma eval_loop_return (fuel : nat) : forall q i nums,
  match eval_loop fuel q i nums with
  | Some (LReturn ok msg _) => ok = false /\ msg = "Numbers mismatched"%string
  | _ => True
  end.
Proof.
  induction fuel as [|f IH]; intros q i nums; [exact I|].
  cbn [eval_loop].
  destruct (i <? Z.of_nat (List.length q)); [|exact I].
  destruct (getitem q i) as [v|e]; [|exact I].
  destruct (is_op_val v).
  - destruct (pop q i) as [[o q1]|e]; [|exact I].
    destruct (case_op o) as [op|]; [|apply IH].
    destruct (reduce_at op q1 i); [apply IH | exact I].
  - destruct (to_int_at q i) as [[n q']|e]; [|exact I].
    destruct (existsb (Z.eqb n) nums); [|split; reflexivity].
    destruct (remove_int nums n); [apply IH | exact I].
Qed.

Lemma finish_messages (q : list pyval) (nums : list Z) (ok : bool) (msg : string) :
  finish q nums = Ok (Returned ok msg) ->
  (ok = true /\ msg = "Correct!"%string) \/
  (ok = false /\ In msg ["Didn't use all the cards"; "Result not 24"]%string).
Proof.
  unfold finish.
  destruct (getitem q 0) as [v|e]; cbn [bind]; [|discriminate].
  destruct (py_print v) as [[]|e]; cbn [bind]; [|discriminate].
  destruct (0 <? Z.of_nat (List.length nums)).
  - intros [= <- <-]; right; simpl; tauto.
  - destruct (py_ge lit_24_1 v) as [[]|e]; cbn [bind]; [| |discriminate].
    + destruct (py_ge v lit_23_9) as [[]|e]; cbn [bind]; [| |discriminate];
        intros [= <- <-]; [left | right; simpl]; tauto.
    + intros [= <- <-]; right; simpl; tauto.
Qed.

(** X: [check_expression] either raises or returns one of five pairs:
    [(True, "Correct!")], or [False] with one of the messages
    "Brackets mismatched", "Numbers mismatched", "Didn't use all the cards"
    and "Result not 24". *)
Theorem check_expression_messages (cards : list Z) (expression : string) :
  match fst (check_expression cards expression) with
  | Returned ok msg =>
      (ok = true /\ msg = "Correct!"%string) \/ (ok = false /\ In msg messages_false)
  | Raised _ => True
  | OutOfFuel => False
  end.
Proof.
  pose proof (check_expression_total cards expression) as Tot.
  unfold check_expression in *.
  pose proof (tokenize_brackets (Uni.cps expression) tok_init
                ltac:(discriminate)) as T.
  destruct (tokenize tok_init (Uni.cps expression)) as [st|ok msg|e];
    [|destruct T as [-> [-> _]]; right; simpl; tauto | contradiction].
  cbv zeta in *.
  pose proof (eval_loop_return (loop_measure (List.length (map VStr (postfix_of st))) 0)
                (map VStr (postfix_of st)) 0 cards) as R.
  destruct (eval_loop _ _ 0 cards) as [[q' n|ok msg n|e n]|] eqn:L.
  - destruct (finish q' n) as [[ok msg| |]|e] eqn:F; cbn [fst] in *; try exact I;
      [|exfalso; apply Tot; reflexivity].
    destruct (finish_messages _ _ _ _ F) as [H|[H1 H2]]; [left; exact H|].
    right; split; [exact H1|]; simpl in H2 |- *; tauto.
  - destruct R as [-> ->]; right; simpl; tauto.
  - exact I.
  - exfalso; apply Tot; reflexivity.
Qed.


(** X: a well-formed expression (numbers of at most 4300 digits, [+ - * /],
    parentheses, ASCII ignorable characters around the operators) whose
    numbers are some of the cards but not all of them, whose evaluation
    raises no error and whose value prints (a float, or an int of at most
    4300 digits), gets [(False, "Didn't use all the cards")]; the caller's
    list is left holding exactly the unused cards. *)
Theorem check_expression_unused_cards (sep : list ascii) (e : gexpr) (cards others : list Z)
    (v : pyval) :
  forallb sep_char sep = true -> forallb fits (leaves_e e) = true ->
  Permutation cards (leaves_e e ++ others) -> others <> [] ->
  pyeval_e e = Ok v -> py_print v = Ok tt ->
  exists rest, check_expression cards (string_of_list_ascii (print_e sep e)) =
               (Returned false "Didn't use all the cards", rest) /\ Permutation rest others.
Proof.
  intros Hsep0 Hfit Hperm Ho Hv Hpr.
  pose proof (forallb_sep_char sep Hsep0) as Hsep.
  unfold check_expression, Uni.cps; rewrite list_ascii_of_string_of_list_ascii.
  rewrite decode_ascii by exact (proj1 (print_ascii sep Hsep) e).
  destruct (proj1 (shunting sep Hsep) e [] [] eq_refl) as [X [P [w [T [XP _]]]]].
  unfold tok_init; rewrite T; unfold postfix_of; cbn [out stk app].
  rewrite app_nil_r, XP; cbv zeta.
  rewrite length_map.
  pose proof (loop_measure_ge (List.length (post_e e))) as HL.
  replace (loop_measure (List.length (post_e e)) 0)
    with (List.length (post_e e) + S (loop_measure (List.length (post_e e)) 0
                                       - List.length (post_e e) - 1))%nat by lia.
  set (F := (loop_measure (List.length (post_e e)) 0 - List.length (post_e e) - 1)%nat).
  pose proof (proj1 grammar_evals e Hfit [] [] cards others (S F) Hperm) as H; cbv zeta in H.
  cbn [app List.length Z.of_nat] in H; rewrite app_nil_r in H.
  rewrite Hv in H.
  destruct H as [_ [nums' [Pn ->]]].
  cbn [eval_loop app].
  change (0 + 1 <? Z.of_nat (List.length [v])) with false; cbv iota.
  exists nums'; split; [|exact Pn].
  assert (G : getitem [v] 0 = Ok v) by reflexivity.
  unfold finish; rewrite G; cbn [bind]; rewrite Hpr; cbn [bind].
  destruct nums' as [|n ns]; [apply Permutation_nil in Pn; exfalso; exact (Ho Pn)|].
  reflexivity.
Qed.

Lemma check_expression_unused_cards_witness :
  forallb sep_char [" "%char] = true /\
  exists rest, check_expression [1; 2; 3; 4]
    (string_of_list_ascii (print_e [" "%char]
       (EAdd (ETerm (TFac (FNum 1))) OAdd (TFac (FNum 2))))) =
    (Returned false "Didn't use all the cards", rest) /\ Permutation rest [3; 4].
Proof.
  split; [reflexivity|].
  apply (check_expression_unused_cards [" "%char] (EAdd (ETerm (TFac (FNum 1))) OAdd (TFac (FNum 2)))
           [1; 2; 3; 4] [3; 4] (VInt 3));
    [reflexivity | vm_compute; reflexivity | simpl; reflexivity | discriminate
    | reflexivity | vm_compute; reflexivity].
Defined.

(** ** More of the solver *)

Lemma remove_obj_length (l : list elem) (k : nat) (card : elem) (l' : list elem) :
  remove_obj l k card = Ok l' -> List.length l = S (List.length l').
Proof.
  intros H; destruct (remove_obj_spec l k card l' H) as [a [y [b [-> [-> _]]]]].
  rewrite !length_app; simpl; lia.
Qed.

Lemma remove_obj_ok (l : list elem) (k : nat) (card : elem) :
  (k < List.length l)%nat -> exists l', remove_obj l k card = Ok l'.
Proof.
  revert k; induction l as [|y r IH]; intros k Hk; simpl in Hk; [lia|].
  destruct k as [|k]; simpl; [eauto|].
  destruct (elem_eq y card); [eauto|].
  destruct (IH k ltac:(lia)) as [r' ->]; eauto.
Qed.

Lemma length_flat_map' {A B : Type} (f : A -> list B) (l : list A) :
  List.length (flat_map f l) = list_sum (map (fun x => List.length (f x)) l).
Proof. induction l as [|x l IH]; simpl; [reflexivity|]. rewrite length_app, IH; reflexivity. Qed.

Lemma pairs_sum (k m : nat) : (k <= m)%nat ->
  (2 * list_sum (map (fun i => m - S i) (seq (m - k) k)) = k * (k - 1))%nat.
Proof.
  induction k as [|k IH]; intros Hk; [reflexivity|].
  replace (seq (m - S k) (S k)) with ((m - S k)%nat :: seq (m - k) k)
    by (simpl; f_equal; f_equal; lia).
  simpl map; simpl list_sum.
  specialize (IH ltac:(lia)).
  replace (m - S (m - S k))%nat with k%nat by lia.
  destruct k; simpl in *; nia.
Qed.

(** The loops visit [n (n - 1) / 2] index pairs. *)
Lemma pairs_length (n : nat) : (2 * List.length (pairs n) = n * (n - 1))%nat.
Proof.
  unfold pairs; rewrite length_flat_map'.
  rewrite (map_ext _ (fun i => n - S i)%nat) by (intros i; rewrite length_map, length_seq; reflexivity).
  replace (seq 0 n) with (seq (n - n)%nat n) by (f_equal; lia).
  apply pairs_sum; lia.
Qed.

Lemma pairs_bounds (n : nat) :
  Forall (fun ij => (fst ij < snd ij)%nat /\ (snd ij < n)%nat) (pairs n).
Proof.
  apply Forall_forall; intros [i j] Hin; unfold pairs in Hin.
  apply in_flat_map in Hin as [i' [_ Hin]].
  apply in_map_iff in Hin as [j' [E Hj]]; injection E as -> ->.
  apply in_seq in Hj; simpl; lia.
Qed.

Lemma gather_pair_shape (nums : list elem) (i j : nat) (a : list (list elem)) :
  gather_pair nums i j = Ok a ->
  Forall (fun st => List.length st = (List.length nums - 1)%nat) a /\
  (List.length a <= 6)%nat /\
  (Forall (fun x => py_truthy (fst x) = true) nums -> List.length a = 6%nat).
Proof.
  unfold gather_pair, nth_res; intros H.
  destruct (nth_error nums i) as [card1|] eqn:N1; [|discriminate]; cbn [bind] in H.
  destruct (nth_error nums j) as [card2|] eqn:N2; [|discriminate]; cbn [bind] in H.
  destruct (remove_obj nums i card1) as [r1|] eqn:R1; [|discriminate]; cbn [bind] in H.
  destruct (remove_obj r1 (j - 1) card2) as [r2|] eqn:R2; [|discriminate]; cbn [bind] in H.
  destruct (possible_vals card1 card2) as [pv|] eqn:PV; [|discriminate]; cbn [bind] in H.
  injection H as <-.
  pose proof (remove_obj_length _ _ _ _ R1) as L1.
  pose proof (remove_obj_length _ _ _ _ R2) as L2.
  destruct card1 as [x tx], card2 as [y ty].
  pose proof (possible_vals_length x y tx ty pv PV) as LP.
  rewrite length_map; split; [|split].
  - apply Forall_map, Forall_forall; intros p _; simpl; lia.
  - rewrite LP; destruct (py_truthy y), (py_truthy x); lia.
  - intros Ht; rewrite LP.
    apply nth_error_In in N1, N2.
    rewrite Forall_forall in Ht.
    pose proof (Ht _ N1) as T1; pose proof (Ht _ N2) as T2; simpl in T1, T2.
    rewrite T1, T2; reflexivity.
Qed.

Lemma gather_shape (nums : list elem) (g : list (list elem)) :
  gather nums = Ok g ->
  Forall (fun st => List.length st = (List.length nums - 1)%nat) g /\
  (List.length g <= 6 * List.length (pairs (List.length nums)))%nat /\
  (Forall (fun x => py_truthy (fst x) = true) nums ->
   List.length g = (6 * List.length (pairs (List.length nums)))%nat).
Proof.
  unfold gather.
  generalize (pairs (List.length nums)) as ps; intros ps.
  revert g; induction ps as [|[i j] ps IH]; intros g H; simpl in H.
  - injection H as <-; simpl; repeat split; auto.
  - destruct (gather_pair nums i j) as [a|] eqn:A; [|discriminate]; cbn [bind] in H.
    destruct (gather_pairs nums ps) as [b|] eqn:B; [|discriminate]; cbn [bind] in H.
    injection H as <-.
    destruct (gather_pair_shape _ _ _ _ A) as [Fa [La Ea]].
    destruct (IH b eq_refl) as [Fb [Lb Eb]].
    rewrite length_app; simpl List.length.
    split; [apply Forall_app; split; assumption|].
    split; [lia|]. intros Ht; rewrite (Ea Ht), (Eb Ht); lia.
Qed.

(** X: each state [gather] forms from a state of [n] elements has [n - 1]
    elements; there are at most [3 n (n - 1)] of them (six per pair of
    positions), and exactly that many when no element's value is zero. *)
Theorem gather_counts (nums : list elem) (g : list (list elem)) :
  gather nums = Ok g ->
  Forall (fun st => List.length st = (List.length nums - 1)%nat) g /\
  (List.length g <= 3 * List.length nums * (List.length nums - 1))%nat /\
  (Forall (fun x => py_truthy (fst x) = true) nums ->
   List.length g = (3 * List.length nums * (List.length nums - 1))%nat).
Proof.
  intros H; destruct (gather_shape nums g H) as [F [L E]].
  pose proof (pairs_length (List.length nums)) as P.
  split; [exact F|]; split; [lia|]. intros Ht; rewrite (E Ht); lia.
Qed.

Lemma gather_counts_witness :
  exists g, gather [(VInt 1, "1"%string); (VInt 2, "2"%string); (VInt 3, "3"%string)] = Ok g /\
  List.length g = 18%nat.
Proof.
  eexists; split; [vm_compute; reflexivity|].
  apply (gather_counts [(VInt 1, "1"%string); (VInt 2, "2"%string); (VInt 3, "3"%string)]);
    [vm_compute; reflexivity|].
  repeat constructor.
Defined.

(** *** The search always ends *)

Lemma stack_weight_rev (g : list (list elem)) :
  list_sum (map (fun st => states_bound (List.length st)) (rev g)) =
  list_sum (map (fun st => states_bound (List.length st)) g).
Proof.
  induction g as [|x g IH]; simpl; [reflexivity|].
  rewrite map_app, list_sum_app, IH; simpl; lia.
Qed.

Lemma stack_weight_const (g : list (list elem)) (c : nat) :
  Forall (fun st => List.length st = c) g ->
  list_sum (map (fun st => states_bound (List.length st)) g) = (List.length g * states_bound c)%nat.
Proof. intros H; induction H as [|x g Hx H IH]; simpl; [reflexivity|]. rewrite Hx, IH; lia. Qed.

(** The successors of a state weigh less than the state. *)
Lemma gather_weight (nums : list elem) (g : list (list elem)) :
  gather nums = Ok g ->
  (list_sum (map (fun st => states_bound (List.length st)) g) < states_bound (List.length nums))%nat.
Proof.
  intros H; destruct (gather_shape nums g H) as [F [L _]].
  pose proof (pairs_length (List.length nums)) as P.
  rewrite (stack_weight_const g _ F).
  destruct (List.length nums) as [|k]; simpl states_bound.
  - simpl in L; assert (List.length g = 0%nat) as -> by lia; simpl; lia.
  - replace (S k - 1)%nat with k by lia.
    assert (List.length g <= 3 * S k * k)%nat by (simpl in P |- *; lia).
    pose proof (Nat.mul_le_mono_r _ _ (states_bound k) H0); rewrite Nat.sub_0_r; nia.
Qed.

Lemma solve_loop_some (fuel : nat) : forall stack,
  (list_sum (map (fun st => states_bound (List.length st)) stack) < fuel)%nat ->
  solve_loop fuel stack <> None.
Proof.
  induction fuel as [|f IH]; intros stack Hw; [lia|].
  destruct stack as [|top rest]; simpl; [discriminate|].
  simpl in Hw.
  destruct (Nat.eqb (List.length top) 1) eqn:L.
  - apply Nat.eqb_eq in L.
    destruct top as [|x tl]; [simpl in L; lia|].
    rewrite L in Hw; simpl in Hw.
    destruct (near_24 (fst x)) as [[]|e]; try discriminate.
    apply IH; lia.
  - destruct (gather top) as [g|e] eqn:G; [|discriminate].
    apply IH.
    rewrite map_app, list_sum_app, stack_weight_rev.
    pose proof (gather_weight top g G); lia.
Qed.

(** *** What the search can raise *)

Lemma binop_num (o : binop) (x y v : pyval) :
  is_num x -> is_num y -> binop_fn o x y = Ok v -> is_num v.
Proof.
  intros Hx Hy H.
  destruct x as [a|fa|sa]; try contradiction; destruct y as [b|fb|sb]; try contradiction;
    destruct o; simpl in H;
    repeat match type of H with
    | bind ?m _ = _ => destruct m; cbn [bind] in H; [|discriminate]
    | (if ?c then _ else _) = _ => destruct c
    end;
    try (injection H as <-; exact I); discriminate.
Qed.

Lemma seval_num (t : stree) (v : pyval) : seval t = Ok v -> is_num v.
Proof.
  revert v; induction t as [z|o l IHl r IHr]; intros v H; simpl in H.
  - injection H as <-; exact I.
  - destruct (seval l) as [a|]; cbn [bind] in H; [|discriminate].
    destruct (seval r) as [b|]; cbn [bind] in H; [|discriminate].
    exact (binop_num o a b v (IHl a eq_refl) (IHr b eq_refl) H).
Qed.

Lemma state_inv_num (cards : list Z) (st : list elem) :
  state_inv cards st -> Forall (fun x => is_num (fst x)) st.
Proof.
  intros [ts [HF _]]; induction HF as [|x t l ts [_ [Hv _]] HF IH]; constructor; [|exact IH].
  exact (seval_num t _ Hv).
Qed.

Lemma possible_vals_err (x y : pyval) (tx ty : string) (e : exn) :
  is_num x -> is_num y -> possible_vals (x, tx) (y, ty) = Err e -> e = OverflowError.
Proof.
  intros Hx Hy; unfold possible_vals.
  destruct (py_add x y) as [v1|e1] eqn:E1; cbn [bind];
    [|intros [= <-]; exact (py_arith_err BAdd x y e1 Hx Hy ltac:(discriminate) E1)].
  destruct (py_sub x y) as [v2|e2] eqn:E2; cbn [bind];
    [|intros [= <-]; exact (py_arith_err BSub x y e2 Hx Hy ltac:(discriminate) E2)].
  destruct (py_sub y x) as [v3|e3] eqn:E3; cbn [bind];
    [|intros [= <-]; exact (py_arith_err BSub y x e3 Hy Hx ltac:(discriminate) E3)].
  destruct (py_mul x y) as [v4|e4] eqn:E4; cbn [bind];
    [|intros [= <-]; exact (py_arith_err BMul x y e4 Hx Hy ltac:(discriminate) E4)].
  destruct (py_truthy y) eqn:Ty; cbn [bind].
  1: destruct (py_truediv x y) as [w1|e5] eqn:D1; cbn [bind];
       [|intros [= <-]; exact (py_arith_err BDiv x y e5 Hx Hy (fun _ => Ty) D1)].
  all: destruct (py_truthy x) eqn:Tx; cbn [bind].
  all: try (destruct (py_truediv y x) as [w2|e6] eqn:D2; cbn [bind];
       [|intros [= <-]; exact (py_arith_err BDiv y x e6 Hy Hx (fun _ => Tx) D2)]).
  all: discriminate.
Qed.

Lemma gather_err (nums : list elem) (e : exn) :
  Forall (fun x => is_num (fst x)) nums -> gather nums = Err e -> e = OverflowError.
Proof.
  intros Hn; unfold gather.
  generalize (pairs_bounds (List.length nums)).
  generalize (pairs (List.length nums)) as ps; intros ps Hps.
  induction Hps as [|[i j] ps [Hij Hj] Hps IH]; simpl; [discriminate|].
  unfold gather_pair, nth_res.
  destruct (nth_error nums i) as [card1|] eqn:N1;
    [|apply nth_error_None in N1; simpl in Hij, Hj; lia].
  destruct (nth_error nums j) as [card2|] eqn:N2;
    [|apply nth_error_None in N2; simpl in Hj; lia].
  cbn [bind].
  destruct (remove_obj_ok nums i card1 ltac:(simpl in Hij, Hj; lia)) as [r1 R1]; rewrite R1; cbn [bind].
  pose proof (remove_obj_length _ _ _ _ R1) as L1.
  destruct (remove_obj_ok r1 (j - 1) card2 ltac:(simpl in Hij, Hj; lia)) as [r2 R2]; rewrite R2.
  cbn [bind].
  destruct card1 as [x tx], card2 as [y ty].
  rewrite Forall_forall in Hn.
  destruct (possible_vals (x, tx) (y, ty)) as [pv|e'] eqn:PV; cbn [bind].
  - destruct (gather_pairs nums ps); cbn [bind]; [discriminate|exact IH].
  - intros [= <-].
    exact (possible_vals_err x y tx ty e' (Hn _ (nth_error_In _ _ N1))
             (Hn _ (nth_error_In _ _ N2)) PV).
Qed.

Lemma near_24_num (v : pyval) : is_num v -> exists b, near_24 v = Ok b.
Proof.
  intros Hv; unfold near_24, py_le, py_ge.
  destruct v as [z|f|s]; [| |contradiction]; simpl num_xval; cbv beta iota;
    [destruct (match xcmp _ _ with Some Gt | Some Eq => true | _ => false end)
    |destruct (match xcmp _ _ with Some Gt | Some Eq => true | _ => false end)];
    cbn [bind]; eauto.
Qed.

Lemma solve_loop_err (cards : list Z) (fuel : nat) : forall stack e,
  Forall (state_inv cards) stack -> solve_loop fuel stack = Some (Err e) -> e = OverflowError.
Proof.
  induction fuel as [|f IH]; intros stack e Hs H; simpl in H; [discriminate|].
  destruct stack as [|top rest]; [discriminate|].
  inversion Hs as [|? ? Htop Hrest]; subst.
  destruct (Nat.eqb (List.length top) 1).
  - destruct top as [|x tl]; [exact (IH rest e Hrest H)|].
    pose proof (state_inv_num _ _ Htop) as Hn; inversion Hn as [|? ? Hx _]; subst.
    destruct (near_24_num (fst x) Hx) as [b Hb]; rewrite Hb in H.
    destruct b; [discriminate | exact (IH rest e Hrest H)].
  - destruct (gather top) as [g|e'] eqn:G.
    + apply (IH (rev g ++ rest)); [|exact H].
      apply Forall_app; split; [apply Forall_rev, (gather_inv _ _ _ Htop G) | exact Hrest].
    + injection H as <-; exact (gather_err top e' (state_inv_num _ _ Htop) G).
Qed.

Lemma card_elems_err (cards : list Z) (e : exn) :
  card_elems cards = Err e -> e = ValueError /\ forallb fits cards = false.
Proof.
  induction cards as [|z cards IH]; simpl; [discriminate|].
  unfold py_str_int, fits.
  destruct (max_str_digits <? List.length (digits_N (Z.abs_N z)))%nat eqn:L; cbn [bind].
  - intros [= <-]; split; [reflexivity|].
    apply Nat.ltb_lt in L; replace (_ <=? _)%nat with false by (symmetry; apply Nat.leb_gt; lia).
    reflexivity.
  - destruct (card_elems cards) as [r|e'] eqn:C; cbn [bind]; [discriminate|].
    intros [= <-]; destruct (IH eq_refl) as [-> F]; split; [reflexivity|].
    unfold fits in F; rewrite F, andb_false_r; reflexivity.
Qed.

(** X: [solve24] always finishes its search, whatever the input list: it
    returns a text or [None], or raises; the exceptions it can raise are
    [OverflowError] (from a value too large for a float) and [ValueError]
    (from [str(i)] on a number of more than 4300 digits, raised only when
    some number of the list has more than 4300 digits). *)
Theorem solve24_finishes (cards : list Z) :
  match solve24 cards with
  | SOutOfFuel => False
  | SRaised e => e = OverflowError \/ (e = ValueError /\ forallb fits cards = false)
  | Solved _ | NoSolution => True
  end.
Proof.
  unfold solve24.
  destruct (card_elems cards) as [ns|e] eqn:C; [|right; exact (card_elems_err _ _ C)].
  destruct (card_elems_ok _ _ C) as [-> _].
  pose proof (initial_state_inv cards) as Hi.
  destruct (gather _) as [st|e] eqn:G.
  - pose proof (gather_weight _ _ G) as W; rewrite length_map in W.
    rewrite <- stack_weight_rev in W.
    pose proof (solve_loop_some _ _ W) as S.
    assert (Hs : Forall (state_inv cards) (rev st))
      by exact (Forall_rev (gather_inv _ _ _ Hi G)).
    destruct (solve_loop _ (rev st)) as [[[s|]|e]|] eqn:L; try exact I.
    + left; exact (solve_loop_err cards _ _ e Hs L).
    + exact (S eq_refl).
  - left; exact (gather_err _ e (state_inv_num _ _ Hi) G).
Qed.

(** X: with fewer than two numbers, each of at most 4300 digits, there is
    no pair to combine, so [solve24] returns [None], even for the single
    number [24]. *)
Theorem solve24_short (cards : list Z) :
  (List.length cards <= 1)%nat -> forallb fits cards = true -> solve24 cards = NoSolution.
Proof.
  intros H Hf; destruct cards as [|x [|y r]]; [reflexivity | | simpl in H; lia].
  simpl in Hf; rewrite andb_true_r in Hf.
  unfold solve24; cbn [card_elems]; unfold py_str_int.
  unfold fits in Hf; apply Nat.leb_le, Nat.ltb_ge in Hf; rewrite Hf; reflexivity.
Qed.

Lemma solve24_short_witness :
  (List.length [24] <= 1)%nat /\ forallb fits [24] = true /\ solve24 [24] = NoSolution.
Proof.
  split; [simpl; lia|]; split; [vm_compute; reflexivity|].
  apply solve24_short; [simpl; lia | vm_compute; reflexivity].
Defined.

(** ** The puzzle generator *)

Import Generator Versus.

Lemma gen_loop_spec (draw : nat -> Z) (fuel : nat) : forall m cards,
  gen_loop fuel draw (4 * S m) (hand draw (4 * m)) = Some (Ok cards) ->
  (forall m', (m' < m)%nat -> solve24 (hand draw (4 * m')) = NoSolution) ->
  exists m'', cards = hand draw (4 * m'') /\
    (forall m', (m' < m'')%nat -> solve24 (hand draw (4 * m')) = NoSolution) /\
    exists s, solve24 cards = Solved s.
Proof.
  induction fuel as [|f IH]; intros m cards H Hprev; cbn [gen_loop] in H; [discriminate|].
  destruct (solve24 (hand draw (4 * m))) as [s| |e|] eqn:Hs; try discriminate.
  - injection H as <-; exists m; split; [reflexivity|]; split; [exact Hprev|eauto].
  - apply (IH (S m)); [replace (4 * S (S m))%nat with (4 * S m + 4)%nat by lia; exact H|].
    intros m' Hm'; destruct (Nat.eq_dec m' m) as [->|N]; [exact Hs|apply Hprev; lia].
Qed.

(** X: a hand that [generate_puzzle] deals, from draws of
    [random.randint(1, 13)], is four numbers in [1..13], the first drawn
    hand of four on which [solve24] finds a text; and that text passes
    [check_expression] with [(True, "Correct!")]. *)
Theorem generate_puzzle_solvable (fuel : nat) (draw : nat -> Z) (cards : list Z) :
  (forall k, 1 <= draw k <= 13) -> generate_puzzle fuel draw = Some (Ok cards) ->
  List.length cards = 4%nat /\ Forall (fun z => 1 <= z <= 13) cards /\
  (exists m, cards = hand draw (4 * m) /\
     forall m', (m' < m)%nat -> solve24 (hand draw (4 * m')) = NoSolution) /\
  exists s, solve24 cards = Solved s /\
            check_expression cards s = (Returned true "Correct!", []).
Proof.
  intros Hd H; unfold generate_puzzle in H.
  destruct (gen_loop_spec draw fuel 0 cards H ltac:(intros; lia)) as [m [-> [Hprev [s Hs]]]].
  split; [reflexivity|].
  split; [unfold hand; repeat constructor; apply Hd|].
  split; [exists m; split; [reflexivity | exact Hprev]|].
  exists s; split; [exact Hs|].
  apply (solve24_checks _ s); [|exact Hs].
  unfold hand; repeat constructor; pose proof (Hd (4 * m)%nat); pose proof (Hd (4 * m + 1)%nat);
    pose proof (Hd (4 * m + 2)%nat); pose proof (Hd (4 * m + 3)%nat); lia.
Qed.

Lemma generate_puzzle_solvable_witness :
  (forall k : nat, 1 <= (fun _ : nat => 6) k <= 13) /\
  generate_puzzle 1 (fun _ => 6) = Some (Ok [6; 6; 6; 6]) /\
  exists s, solve24 [6; 6; 6; 6] = Solved s /\
            check_expression [6; 6; 6; 6] s = (Returned true "Correct!", []).
Proof.
  split; [intros; lia|]. split; [vm_compute; reflexivity|].
  apply (generate_puzzle_solvable 1 (fun _ => 6) [6; 6; 6; 6]); [intros; lia | vm_compute; reflexivity].
Defined.

(** ** Rounds and attempts in a room *)

Lemma dict_get_set_same {V : Type} (d : list (string * V)) (k : string) (v : V) :
  dict_get (dict_set d k v) k = Some v.
Proof.
  unfold dict_get; induction d as [|[k' v'] d IH]; simpl.
  - rewrite String.eqb_refl; reflexivity.
  - destruct (String.eqb_spec k' k) as [->|N]; simpl.
    + rewrite String.eqb_refl; reflexivity.
    + destruct (String.eqb_spec k' k); [contradiction|]. exact IH.
Qed.

Lemma dict_get_set_other {V : Type} (d : list (string * V)) (k p : string) (v : V) :
  k <> p -> dict_get (dict_set d k v) p = dict_get d p.
Proof.
  intros N; unfold dict_get; induction d as [|[k' v'] d IH]; simpl.
  - destruct (String.eqb_spec k p); [contradiction|reflexivity].
  - destruct (String.eqb_spec k' k) as [->|N']; simpl.
    + destruct (String.eqb_spec k p); [contradiction|reflexivity].
    + destruct (String.eqb k' p); [reflexivity|exact IH].
Qed.

Lemma dict_get_pop_other {V : Type} (d : list (string * V)) (k p : string) :
  k <> p -> dict_get (dict_pop d k) p = dict_get d p.
Proof.
  intros N; unfold dict_get, dict_pop; induction d as [|[k' v'] d IH]; simpl; [reflexivity|].
  destruct (String.eqb_spec k' k) as [->|N']; simpl.
  - destruct (String.eqb_spec k p); [contradiction|exact IH].
  - destruct (String.eqb k' p); [reflexivity|exact IH].
Qed.

(** A broadcast drops only failing players: the round, the puzzle and the
    other players' entries stay. *)
Lemma send_to_room_spec (r : room) (dead : list string) :
  let r' := send_to_room r dead in
  room_id r' = room_id r /\ mode r' = mode r /\ nums r' = nums r /\
  round_active r' = round_active r /\ round_id r' = round_id r /\
  coop_correct r' = coop_correct r /\
  (forall p, ~ In p dead ->
     dict_get (names r') p = dict_get (names r) p /\
     dict_get (scores r') p = dict_get (scores r) p).
Proof.
  unfold send_to_room.
  assert (Hsub : forall p, In p (filter (fun pid => existsb (String.eqb pid) dead) (clients r)) ->
                 In p dead).
  { intros p Hp; apply filter_In in Hp as [_ Hp].
    apply existsb_exists in Hp as [q [Hq E]]; apply String.eqb_eq in E; subst; exact Hq. }
  revert Hsub.
  generalize (filter (fun pid => existsb (String.eqb pid) dead) (clients r)) as ps.
  intros ps; revert r; induction ps as [|q ps IH]; intros r Hsub; simpl.
  - repeat split; reflexivity.
  - destruct (IH (drop_player r q) (fun p Hp => Hsub p (or_intror Hp)))
      as [A [B [C [D [E [F G]]]]]].
    simpl in A, B, C, D, E, F.
    refine (conj A (conj B (conj C (conj D (conj E (conj F _)))))).
    intros p Hp; destruct (G p Hp) as [G1 G2]; rewrite G1, G2; simpl.
    assert (Nq : q <> p) by (intros <-; exact (Hp (Hsub q (or_introl eq_refl)))).
    split; apply dict_get_pop_other; exact Nq.
Qed.

Lemma attempt_outcome_facts (r : room) (pid raw : string) (dead : list string) :
  match attempt r pid raw dead with
  | AReply (ok, _) r' nr =>
      if ok then round_active r = true /\ round_active r' = false /\ nr = true /\
                 dict_get (names r) pid <> None
      else r' = r /\ nr = false
  | ARaise (ok, _) e r' =>
      ok = true /\ e = KeyError /\ round_active r = true /\ round_active r' = false /\
      dict_get (names r) pid = None
  end.
Proof.
  unfold attempt.
  destruct (round_active r) eqn:A; cbn [negb]; [|split; reflexivity].
  destruct (verdict (nums r) (Uni.of_cps (firstn 256 (Uni.cps raw)))) as [ok message] eqn:V.
  destruct ok; [|split; reflexivity].
  destruct (String.eqb (mode (set_inactive r)) "versus");
    cbn [names set_inactive];
    destruct (dict_get (names r) pid) eqn:N;
    try (repeat split; reflexivity);
    match goal with |- context [send_to_room ?r2 dead] =>
      destruct (send_to_room_spec r2 dead) as [_ [_ [_ [S4 _]]]] end;
    rewrite S4; repeat split; discriminate.
Qed.

(** X: the outcome of an attempt. A rejected attempt leaves the room as it
    was and schedules no round. An accepted one only happens while a round
    runs; it closes the round and schedules the next one, unless the player
    has no [names] entry (dropped by an earlier broadcast): then
    [r.names[player_id]] raises [KeyError] after the round is closed, and no
    next round is scheduled. *)
Theorem attempt_outcome (r : room) (pid raw : string) (dead : list string) :
  match attempt r pid raw dead with
  | AReply (ok, _) r' nr =>
      if ok then round_active r = true /\ round_active r' = false /\ nr = true /\
                 dict_get (names r) pid <> None
      else r' = r /\ nr = false
  | ARaise (ok, _) e r' =>
      ok = true /\ e = KeyError /\ round_active r = true /\ round_active r' = false /\
      dict_get (names r) pid = None
  end.
Proof. exact (attempt_outcome_facts r pid raw dead). Qed.

(** X: the scores after an accepted attempt. In a versus room the solver's
    score becomes its old value (0 when absent) plus one, and nobody else's
    score nor the team count changes; in a co-op room the team count goes up
    by one and no score changes. Players dropped by the broadcast lose
    their entry, so the statement is about the others. *)
Theorem attempt_scoring (r r' : room) (pid raw message : string) (dead : list string)
    (nr : bool) :
  attempt r pid raw dead = AReply (true, message) r' nr ->
  ~ In pid dead ->
  let old := match dict_get (scores r) pid with Some s => s | None => 0 end in
  (mode r = "versus"%string ->
     dict_get (scores r') pid = Some (old + 1) /\ coop_correct r' = coop_correct r /\
     forall p, p <> pid -> ~ In p dead -> dict_get (scores r') p = dict_get (scores r) p) /\
  (mode r <> "versus"%string ->
     coop_correct r' = coop_correct r + 1 /\
     forall p, ~ In p dead -> dict_get (scores r') p = dict_get (scores r) p).
Proof.
  intros H Hd; cbv zeta; unfold attempt in H.
  destruct (round_active r); cbn [negb] in H; [|discriminate].
  destruct (verdict (nums r) (Uni.of_cps (firstn 256 (Uni.cps raw)))) as [ok m] eqn:V.
  destruct ok; [|discriminate].
  unfold set_inactive in H;
    cbn [room_id mode clients names scores nums round_active round_id coop_correct] in H.
  destruct (String.eqb (mode r) "versus") eqn:Mv;
    [apply String.eqb_eq in Mv | apply String.eqb_neq in Mv].
  - cbn [names] in H; destruct (dict_get (names r) pid); [|discriminate].
    injection H as _ <- _.
    match goal with |- context [send_to_room ?r2 dead] =>
      destruct (send_to_room_spec r2 dead) as [_ [_ [_ [_ [_ [S6 S7]]]]]] end.
    split; [|intros C; contradiction].
    intros _; cbn [coop_correct scores] in S6, S7; split; [|split].
    + destruct (S7 pid Hd) as [_ ->]; apply dict_get_set_same.
    + exact S6.
    + intros p Np Hp; destruct (S7 p Hp) as [_ ->]; apply dict_get_set_other; congruence.
  - cbn [names] in H; destruct (dict_get (names r) pid); [|discriminate].
    injection H as _ <- _.
    match goal with |- context [send_to_room ?r2 dead] =>
      destruct (send_to_room_spec r2 dead) as [_ [_ [_ [_ [_ [S6 S7]]]]]] end.
    split; [intros C; contradiction|].
    intros _; cbn [coop_correct scores] in S6, S7; split; [exact S6|].
    intros p Hp; destruct (S7 p Hp) as [_ ->]; reflexivity.
Qed.




Lemma attempt_scoring_witness :
  let r0 := mk_room "r" "versus" ["a"; "b"]%string [("a", "Ann"); ("b", "Bo")]%string
              [("a"%string, 2); ("b"%string, 5)] [6; 6; 6; 6] true "id1" 0 in
  let r1 := match attempt r0 "a" "6+6+6+6" [] with
            | AReply _ r' _ | ARaise _ _ r' => r' end in
  attempt r0 "a" "6+6+6+6" [] = AReply (true, "Correct!"%string) r1 true /\
  dict_get (scores r1) "a" = Some 3 /\ dict_get (scores r1) "b" = Some 5.
Proof.
  intros r0 r1.
  assert (E : attempt r0 "a" "6+6+6+6" [] = AReply (true, "Correct!"%string) r1 true)
    by (unfold r1, r0; vm_compute; reflexivity).
  destruct (attempt_scoring r0 r1 "a" "6+6+6+6" "Correct!" [] true E (fun H => H))
    as [Hv _].
  destruct (Hv eq_refl) as [Ha [_ Hb]].
  split; [exact E|]; split.
  - rewrite Ha; reflexivity.
  - rewrite (Hb "b"%string ltac:(discriminate) (fun H => H)); reflexivity.
Defined.

Lemma dict_get_app_new {V : Type} (d : list (string * V)) (k p : string) (v : V) :
  dict_get d k = None ->
  dict_get (d ++ [(k, v)]) p = if String.eqb k p then Some v else dict_get d p.
Proof.
  unfold dict_get; induction d as [|[k' v'] d IH]; simpl; intros N.
  - destruct (String.eqb k p); reflexivity.
  - destruct (String.eqb_spec k' k) as [->|N']; [discriminate|].
    destruct (String.eqb_spec k' p) as [->|N''].
    + destruct (String.eqb_spec k p); [congruence|reflexivity].
    + exact (IH N).
Qed.

Lemma dict_setdefault_get {V : Type} (d : list (string * V)) (k p : string) (v : V) :
  dict_get (dict_setdefault d k v) p =
  if String.eqb k p then Some (match dict_get d k with Some x => x | None => v end)
  else dict_get d p.
Proof.
  unfold dict_setdefault; destruct (dict_get d k) eqn:G.
  - destruct (String.eqb_spec k p) as [<-|]; [exact G|reflexivity].
  - exact (dict_get_app_new d k p v G).
Qed.

Lemma drop_player_clients (r : room) (q p : string) :
  q <> p -> In p (clients r) -> In p (clients (drop_player r q)).
Proof.
  intros N H; simpl; apply filter_In; split; [exact H|].
  destruct (String.eqb_spec p q); [congruence|reflexivity].
Qed.

Lemma send_to_room_clients (r : room) (dead : list string) (p : string) :
  ~ In p dead -> In p (clients r) -> In p (clients (send_to_room r dead)).
Proof.
  unfold send_to_room; intros Hd.
  assert (Hsub : forall q, In q (filter (fun pid => existsb (String.eqb pid) dead) (clients r)) ->
                 q <> p).
  { intros q Hq <-; apply filter_In in Hq as [_ Hq].
    apply existsb_exists in Hq as [x [Hx E]]; apply String.eqb_eq in E; subst; exact (Hd Hx). }
  revert Hsub.
  generalize (filter (fun pid => existsb (String.eqb pid) dead) (clients r)) as ps.
  intros ps; revert r; induction ps as [|q ps IH]; intros r Hsub H; simpl; [exact H|].
  apply IH; [intros x Hx; exact (Hsub x (or_intror Hx))|].
  apply drop_player_clients; [exact (Hsub q (or_introl eq_refl))|exact H].
Qed.

Lemma join_facts (r : room) (pid name : string) (dead : list string) (hand : list Z)
    (rid : string) (dead1 dead2 : list string) :
  ~ In pid dead -> ~ In pid dead1 -> ~ In pid dead2 ->
  let r' := join r pid name dead hand rid dead1 dead2 in
  round_active r' = true /\
  match round_active r, nums r with
  | true, _ :: _ => nums r' = nums r /\ round_id r' = round_id r
  | _, _ => nums r' = hand /\ round_id r' = rid
  end /\
  In pid (clients r') /\ dict_get (names r') pid = Some name /\
  dict_get (scores r') pid =
    Some (match dict_get (scores r) pid with Some s => s | None => 0 end) /\
  (forall p, p <> pid -> ~ In p dead -> ~ In p dead1 -> ~ In p dead2 ->
     dict_get (names r') p = dict_get (names r) p /\
     dict_get (scores r') p = dict_get (scores r) p) /\
  coop_correct r' = coop_correct r /\ room_id r' = room_id r /\ mode r' = mode r.
Proof.
  intros H0 H1 H2; cbv zeta; unfold join.
  set (r1 := mk_room (room_id r) (mode r)
               (if existsb (String.eqb pid) (clients r) then clients r else clients r ++ [pid])
               (dict_set (names r) pid name) (dict_setdefault (scores r) pid 0)
               (nums r) (round_active r) (round_id r) (coop_correct r)).
  assert (C1 : In pid (clients r1)).
  { unfold r1; simpl. destruct (existsb (String.eqb pid) (clients r)) eqn:E.
    - apply existsb_exists in E as [x [Hx Ex]]; apply String.eqb_eq in Ex; subst; exact Hx.
    - apply in_or_app; right; left; reflexivity. }
  assert (N1 : dict_get (names r1) pid = Some name) by apply dict_get_set_same.
  assert (S1 : dict_get (scores r1) pid =
               Some (match dict_get (scores r) pid with Some s => s | None => 0 end)).
  { unfold r1; simpl; rewrite dict_setdefault_get, String.eqb_refl; reflexivity. }
  assert (O1 : forall p, p <> pid ->
     dict_get (names r1) p = dict_get (names r) p /\
     dict_get (scores r1) p = dict_get (scores r) p).
  { intros p Np; unfold r1; simpl; split.
    - apply dict_get_set_other; congruence.
    - rewrite dict_setdefault_get; destruct (String.eqb_spec pid p); [congruence|reflexivity]. }
  destruct (send_to_room_spec r1 dead) as [A1 [A2 [A3 [A4 [A5 [A6 A7]]]]]].
  pose proof (send_to_room_clients r1 dead pid H0 C1) as C2.
  set (r2 := send_to_room r1 dead) in *.
  assert (Hr2 : forall p, p <> pid -> ~ In p dead ->
     dict_get (names r2) p = dict_get (names r) p /\
     dict_get (scores r2) p = dict_get (scores r) p).
  { intros p Np Hp; destruct (A7 p Hp) as [-> ->]; exact (O1 p Np). }
  destruct (A7 pid H0) as [N2 S2]; rewrite N1 in N2; rewrite S1 in S2.
  simpl in A1, A2, A3, A4, A5, A6.
  rewrite A4, A3.
  destruct (negb (round_active r) ||
            match nums r with [] => true | _ :: _ => false end) eqn:Cond.
  - (* a new round *)
    unfold start_round.
    set (r3 := mk_room (room_id r2) (mode r2) (clients r2) (names r2) (scores r2) hand true rid
                 (coop_correct r2)).
    destruct (send_to_room_spec r3 dead1) as [B1 [B2 [B3 [B4 [B5 [B6 B7]]]]]].
    destruct (send_to_room_spec (send_to_room r3 dead1) dead2)
      as [D1 [D2 [D3 [D4 [D5 [D6 D7]]]]]].
    simpl in B1, B2, B3, B4, B5, B6.
    rewrite D1, D2, D3, D4, D5, D6, B1, B2, B3, B4, B5, B6, A1, A2, A6.
    split; [reflexivity|]; split.
    { destruct (round_active r), (nums r); try discriminate; split; reflexivity. }
    split; [|split; [|split; [|split]]].
    + apply send_to_room_clients; [exact H2|].
      apply send_to_room_clients; [exact H1|exact C2].
    + destruct (D7 pid H2) as [-> _]; destruct (B7 pid H1) as [-> _]; exact N2.
    + destruct (D7 pid H2) as [_ ->]; destruct (B7 pid H1) as [_ ->]; exact S2.
    + intros p Np Hp Hp1 Hp2.
      destruct (D7 p Hp2) as [-> ->]; destruct (B7 p Hp1) as [-> ->]; exact (Hr2 p Np Hp).
    + repeat split.
  - (* the current round goes on *)
    rewrite A1, A2, A4, A5, A6.
    destruct (round_active r), (nums r); try discriminate.
    split; [reflexivity|]; split; [rewrite A3; split; reflexivity|].
    split; [exact C2|]; split; [exact N2|]; split; [exact S2|].
    split; [intros p Np Hp _ _; exact (Hr2 p Np Hp)|].
    repeat split.
Qed.

(** X: after a player joins a room (and stays connected through the
    broadcasts), a round is running; it is the new round with the freshly
    generated hand and round id when no round was running or the room had
    no cards, and the unchanged current round otherwise. The player is a
    client, has their name, and keeps their score (0 when new); nobody
    else's name or score, the team count, the room id or the mode change. *)
Theorem join_spec (r : room) (pid name : string) (dead : list string) (hand : list Z)
    (rid : string) (dead1 dead2 : list string) :
  ~ In pid dead -> ~ In pid dead1 -> ~ In pid dead2 ->
  let r' := join r pid name dead hand rid dead1 dead2 in
  round_active r' = true /\
  match round_active r, nums r with
  | true, _ :: _ => nums r' = nums r /\ round_id r' = round_id r
  | _, _ => nums r' = hand /\ round_id r' = rid
  end /\
  In pid (clients r') /\ dict_get (names r') pid = Some name /\
  dict_get (scores r') pid =
    Some (match dict_get (scores r) pid with Some s => s | None => 0 end) /\
  (forall p, p <> pid -> ~ In p dead -> ~ In p dead1 -> ~ In p dead2 ->
     dict_get (names r') p = dict_get (names r) p /\
     dict_get (scores r') p = dict_get (scores r) p) /\
  coop_correct r' = coop_correct r /\ room_id r' = room_id r /\ mode r' = mode r.
Proof.
  intros H0 H1 H2; exact (join_facts r pid name dead hand rid dead1 dead2 H0 H1 H2).
Qed.

Lemma join_spec_witness :
  ~ In "p"%string [] /\ ~ In "p"%string [] /\ ~ In "p"%string [] /\
  let r' := join (mk_room "r" "coop" [] [] [] [] false "" 4) "p" "Pat" []
              [6; 6; 6; 6] "id1" [] [] in
  round_active r' = true /\ nums r' = [6; 6; 6; 6] /\ round_id r' = "id1"%string /\
  dict_get (names r') "p" = Some "Pat"%string /\ dict_get (scores r') "p" = Some 0.
Proof.
  split; [intros H; exact H|]; split; [intros H; exact H|]; split; [intros H; exact H|].
  destruct (join_spec (mk_room "r" "coop" [] [] [] [] false "" 4) "p" "Pat" []
              [6; 6; 6; 6] "id1" [] [] (fun H => H) (fun H => H) (fun H => H))
    as [A [[B C] [_ [D [E _]]]]].
  cbv zeta; split; [exact A|]; split; [exact B|]; split; [exact C|]; split; [exact D|].
  rewrite E; reflexivity.
Defined.

(** ** Creating, joining and entering rooms *)

Import Lobby.


Lemma create_room_facts (hash_password : string -> string -> string)
    (ROOMS : list (string * lobby_room)) (room mode password salt : string) :
  match create_room hash_password ROOMS room mode password salt with
  | inl (HTTPException code detail) =>
      code = 400 /\
      ((strip room = ""%string /\ detail = "Room ID required."%string) \/
       (strip room <> ""%string /\ password = ""%string /\
        detail = "Password must be used."%string) \/
       (strip room <> ""%string /\ password <> ""%string /\
        dict_get ROOMS (room_key (strip room) (normalize_mode mode)) <> None /\
        detail = "Room already exists."%string))
  | inr (ROOMS', (rid, m)) =>
      rid = strip room /\ m = normalize_mode mode /\ rid <> ""%string /\
      dict_get ROOMS (room_key rid m) = None /\
      dict_get ROOMS' (room_key rid m) =
        Some (mk_lobby_room rid m (Some salt) (Some (hash_password password salt))) /\
      (forall k, k <> room_key rid m -> dict_get ROOMS' k = dict_get ROOMS k)
  end.
Proof.
  unfold create_room.
  destruct (String.eqb_spec (strip room) "") as [E|E].
  { split; [reflexivity|]; left; split; [exact E|reflexivity]. }
  destruct (String.eqb_spec password "") as [P|P].
  { split; [reflexivity|]; right; left; repeat split; assumption. }
  destruct (dict_get ROOMS (room_key (strip room) (normalize_mode mode))) eqn:G.
  { split; [reflexivity|]; right; right; repeat split; try assumption; congruence. }
  repeat split; try assumption.
  - apply dict_get_set_same.
  - intros k Nk; apply dict_get_set_other; congruence.
Qed.




(** X: the lobby round trip. Once [create_room] has made a room with a
    (non-empty) salt and hash, [join_room] with the same id up to
    surrounding whitespace and the same mode up to case succeeds with the
    room's password and answers 403 to any password of a different hash;
    the token it issues (a non-empty one) lets [ws_room] enter that room
    under the joined name as long as the clock [time.time() * 1000], a
    finite float, is at most the issue time plus two hours, and is refused
    with 4403 once the clock is past it. *)
Theorem lobby_round_trip (hash_password : string -> string -> string)
    (ROOMS ROOMS' : list (string * lobby_room)) (TOKENS : list (string * join_token))
    (room mode password salt rid m room' mode' name token : string) (now : Z) :
  create_room hash_password ROOMS room mode password salt = inr (ROOMS', (rid, m)) ->
  salt <> ""%string -> hash_password password salt <> ""%string -> token <> ""%string ->
  strip room' = rid -> normalize_mode mode' = m ->
  (forall pw, hash_password pw salt <> hash_password password salt ->
     join_room hash_password ROOMS' TOKENS room' mode' pw name token now =
       inl (HTTPException 403 "Invalid password.")) /\
  exists TOKENS' nm,
    join_room hash_password ROOMS' TOKENS room' mode' password name token now =
      inr (TOKENS', (token, rid, m, nm)) /\
    forall (now' : float) (q : Q), xval_of_float now' = XFin q ->
      ws_entry ROOMS' TOKENS' (Some token) now' =
      if Qle_bool q (inject_Z (now + default_ttl_ms)) then Enter (room_key rid m) nm
      else Close 4403.
Proof.
  intros C Hs Hh Ht Hr Hm.
  pose proof (create_room_facts hash_password ROOMS room mode password salt) as Sp.
  rewrite C in Sp; destruct Sp as [_ [_ [_ [_ [G _]]]]].
  assert (Pre : forall pw,
    join_room hash_password ROOMS' TOKENS room' mode' pw name token now =
    if negb (String.eqb (hash_password pw salt) (hash_password password salt))
    then inl (HTTPException 403 "Invalid password.")
    else
      let name0 := Uni.of_cps (firstn 24 (strip_cps (Uni.cps name))) in
      let nm := if String.eqb name0 "" then "Player"%string else name0 in
      inr (dict_set TOKENS token (mk_join_token token (room_key rid m) nm now default_ttl_ms),
           (token, rid, m, nm))).
  { intros pw; unfold join_room; rewrite Hr, Hm, G; cbn [password_hash password_salt present].
    apply String.eqb_neq in Hs; apply String.eqb_neq in Hh; rewrite Hs, Hh; reflexivity. }
  split.
  - intros pw Np; rewrite Pre; apply String.eqb_neq in Np; rewrite Np; reflexivity.
  - rewrite Pre, String.eqb_refl; cbv zeta; do 2 eexists; split; [reflexivity|].
    intros now' q Hq; unfold ws_entry.
    apply String.eqb_neq in Ht; rewrite Ht, dict_get_set_same; unfold expired;
      cbn [jt_room_key jt_name issued_at_ms ttl_ms num_xval]; rewrite Hq; cbn [xcmp].
    destruct (Qle_bool q (inject_Z (now + default_ttl_ms))) eqn:B.
    + apply Qle_bool_iff in B; pose proof (proj1 (Qle_alt _ _) B) as B2.
      destruct (q ?= inject_Z (now + default_ttl_ms))%Q; [| |exfalso; apply B2; reflexivity];
        rewrite G; reflexivity.
    + assert (B' : ~ (q <= inject_Z (now + default_ttl_ms))%Q)
        by (intros B'; apply Qle_bool_iff in B'; congruence).
      apply Qnot_le_lt in B'; rewrite (proj1 (Qgt_alt q _) B'); reflexivity.
Qed.

Lemma lobby_round_trip_witness :
  let h := fun p s : string => String.append s p in
  create_room h [] "  lobby " "Coop" "pw" "salt" =
    inr ([("coop:lobby"%string, mk_lobby_room "lobby" "coop" (Some "salt"%string) (Some "saltpw"%string))],
         ("lobby"%string, "coop"%string)) /\
  join_room h [("coop:lobby"%string, mk_lobby_room "lobby" "coop" (Some "salt"%string) (Some "saltpw"%string))]
    [] "lobby" "COOP" "nope" "Ann" "t" 0 = inl (HTTPException 403 "Invalid password.").
Proof.
  intros h.
  assert (C : create_room h [] "  lobby " "Coop" "pw" "salt" =
    inr ([("coop:lobby"%string, mk_lobby_room "lobby" "coop" (Some "salt"%string) (Some "saltpw"%string))],
         ("lobby"%string, "coop"%string))) by (vm_compute; reflexivity).
  split; [exact C|].
  destruct (lobby_round_trip h [] _ [] "  lobby " "Coop" "pw" "salt" "lobby" "coop" "lobby" "COOP"
              "Ann" "t" 0 C ltac:(discriminate) ltac:(discriminate) ltac:(discriminate)
              ltac:(vm_compute; reflexivity) ltac:(vm_compute; reflexivity)) as [Bad _].
  apply Bad; discriminate.
Defined.










